(** * Definition lists of goldmark: the block parsers and the HTML renderer

    A shallow embedding of [extension/definition_list.go]: the two block
    parsers ([definitionListParser], [definitionDescriptionParser]) and
    [DefinitionListHTMLRenderer].

    Go pointers to nodes are indices into an arena ([Heap]); a nil pointer
    is [None].  Go's [int] is 64 bits wide; every integer of this file is a
    byte position or a column inside one line of the source text, so the
    arithmetic stays far inside that range and is the arithmetic of [Z].
    A run-time panic of Go (nil dereference, failed type assertion, index
    out of range) is the outcome [Panic]. *)

From Stdlib Require Import ZArith Strings.Byte Strings.Ascii Strings.String.
From stdpp Require Import base list option numbers strings.

Local Open Scope Z_scope.

(** ** Outcomes of a call *)

Inductive exec (A : Type) : Type :=
| Ok (a : A)
| Panic
| OutOfFuel.
Arguments Ok {A} a.
Arguments Panic {A}.
Arguments OutOfFuel {A}.

Definition bind {A B : Type} (m : exec A) (k : A -> exec B) : exec B :=
  match m with
  | Ok a => k a
  | Panic => Panic
  | OutOfFuel => OutOfFuel
  end.

Notation "'let!' x ':=' m 'in' k" := (bind m (fun x => k))
  (at level 10, x pattern, m at level 100, k at level 200).

(** [bs[i]] and [bs[i:]] of Go, with their bounds checks. *)
Definition index (bs : list byte) (i : Z) : exec byte :=
  if 0 <=? i then
    match bs !! Z.to_nat i with
    | Some b => Ok b
    | None => Panic
    end
  else Panic.

Definition sliceFrom (bs : list byte) (i : Z) : exec (list byte) :=
  if (0 <=? i) && (i <=? Z.of_nat (length bs))
  then Ok (drop (Z.to_nat i) bs)
  else Panic.

(** ** The node arena *)

Abbreviation NodeId := nat.

Record Segment := NewSegmentPadding { Start : Z; Stop : Z; Padding : Z }.

#[global] Instance Segment_eq_dec : EqDecision Segment.
Proof. solve_decision. Defined.

(** The dynamic type of a node together with the fields that type adds to
    [BaseBlock]: [ast.DefinitionList] has [Offset] and [TemporaryParagraph],
    [ast.DefinitionDescription] has [IsTight]. *)
Inductive NodeData :=
| Document
| Paragraph
| TextBlock
| OtherBlock
| DefinitionList (Offset : Z) (TemporaryParagraph : option NodeId)
| DefinitionTerm
| DefinitionDescription (IsTight : bool).

#[global] Instance NodeData_eq_dec : EqDecision NodeData.
Proof. solve_decision. Defined.

Record Node := mkNode {
  data : NodeData;
  parent : option NodeId;
  children : list NodeId;
  lines : list Segment;
  blankPreviousLines : bool
}.

#[global] Instance Node_eq_dec : EqDecision Node.
Proof. solve_decision. Defined.

Abbreviation Heap := (list Node).

Definition setData (d : NodeData) (n : Node) : Node :=
  mkNode d (parent n) (children n) (lines n) (blankPreviousLines n).
Definition setParent (p : option NodeId) (n : Node) : Node :=
  mkNode (data n) p (children n) (lines n) (blankPreviousLines n).
Definition setChildren (c : list NodeId) (n : Node) : Node :=
  mkNode (data n) (parent n) c (lines n) (blankPreviousLines n).
Definition setLines (l : list Segment) (n : Node) : Node :=
  mkNode (data n) (parent n) (children n) l (blankPreviousLines n).

(** A node as its constructor leaves it: no parent, no children, no lines. *)
Definition newNode (d : NodeData) : Node := mkNode d None [] [] false.

(** Dereferencing a pointer. *)
Definition deref (h : Heap) (n : NodeId) : exec Node :=
  match h !! n with
  | Some x => Ok x
  | None => Panic
  end.

Definition alloc (h : Heap) (n : Node) : NodeId * Heap := (length h, h ++ [n]).

(** Positions in a sequence of children. *)
Fixpoint next_in (l : list NodeId) (v : NodeId) : option NodeId :=
  match l with
  | [] => None
  | x :: t => if decide (x = v) then head t else next_in t v
  end.

Fixpoint prev_in (l : list NodeId) (v : NodeId) : option NodeId :=
  match l with
  | [] => None
  | x :: t =>
      match t with
      | [] => None
      | y :: _ => if decide (y = v) then Some x else prev_in t v
      end
  end.

Fixpoint remove_id (v : NodeId) (l : list NodeId) : list NodeId :=
  match l with
  | [] => []
  | x :: t => if decide (x = v) then remove_id v t else x :: remove_id v t
  end.

Fixpoint insert_before (v1 insertee : NodeId) (l : list NodeId) : list NodeId :=
  match l with
  | [] => []
  | x :: t => if decide (x = v1) then insertee :: x :: t
              else x :: insert_before v1 insertee t
  end.

(** Modelled from the spec: package [ast] of goldmark (the generic node
    type [BaseNode] with its tree operations) is not among the sources.  The
    spec gives a node an ordered sequence of children (section 3), lets a
    node be detached from its parent and a child be replaced in place
    (sections 4.3 and 4.5).  A node therefore carries its parent and the
    sequence of its children; the sibling of a node is read off its parent's
    sequence, so that a detached node has no sibling. *)
Module gast.

Definition Parent (h : Heap) (n : NodeId) : exec (option NodeId) :=
  let! x := deref h n in Ok (parent x).

Definition FirstChild (h : Heap) (n : NodeId) : exec (option NodeId) :=
  let! x := deref h n in Ok (head (children x)).

Definition LastChild (h : Heap) (n : NodeId) : exec (option NodeId) :=
  let! x := deref h n in Ok (last (children x)).

Definition NextSibling (h : Heap) (n : NodeId) : exec (option NodeId) :=
  let! x := deref h n in
  match parent x with
  | None => Ok None
  | Some p => let! pn := deref h p in Ok (next_in (children pn) n)
  end.

Definition PreviousSibling (h : Heap) (n : NodeId) : exec (option NodeId) :=
  let! x := deref h n in
  match parent x with
  | None => Ok None
  | Some p => let! pn := deref h p in Ok (prev_in (children pn) n)
  end.

Definition Lines (h : Heap) (n : NodeId) : exec (list Segment) :=
  let! x := deref h n in Ok (lines x).

Definition SetLines (h : Heap) (n : NodeId) (l : list Segment) : exec Heap :=
  let! x := deref h n in Ok (<[n := setLines l x]> h).

Definition HasBlankPreviousLines (h : Heap) (n : NodeId) : exec bool :=
  let! x := deref h n in Ok (blankPreviousLines x).

(** [self.RemoveChild(self, v)]: nothing happens unless [v] is a child of
    [self]. *)
Definition RemoveChild (h : Heap) (self v : NodeId) : exec Heap :=
  let! vn := deref h v in
  if decide (parent vn = Some self) then
    let! sn := deref h self in
    let h1 := <[self := setChildren (remove_id v (children sn)) sn]> h in
    let! vn1 := deref h1 v in
    Ok (<[v := setParent None vn1]> h1)
  else Ok h.

(** A node that is inserted somewhere is first taken out of where it is. *)
Definition ensureIsolated (h : Heap) (v : NodeId) : exec Heap :=
  let! vn := deref h v in
  match parent vn with
  | Some p => RemoveChild h p v
  | None => Ok h
  end.

Definition AppendChild (h : Heap) (self v : NodeId) : exec Heap :=
  let! h1 := ensureIsolated h v in
  let! sn := deref h1 self in
  let h2 := <[self := setChildren (children sn ++ [v]) sn]> h1 in
  let! vn := deref h2 v in
  Ok (<[v := setParent (Some self) vn]> h2).

(** [self.InsertBefore(self, v1, insertee)] for a non-nil [v1]. *)
Definition InsertBefore (h : Heap) (self v1 insertee : NodeId) : exec Heap :=
  let! h1 := ensureIsolated h insertee in
  let! v1n := deref h1 v1 in
  if decide (parent v1n = Some self) then
    let! sn := deref h1 self in
    let h2 := <[self := setChildren (insert_before v1 insertee (children sn)) sn]> h1 in
    let! inn := deref h2 insertee in
    Ok (<[insertee := setParent (Some self) inn]> h2)
  else Ok h1.

Definition ReplaceChild (h : Heap) (self v1 insertee : NodeId) : exec Heap :=
  let! h1 := InsertBefore h self v1 insertee in
  RemoveChild h1 self v1.

Definition NewTextBlock (h : Heap) : NodeId * Heap := alloc h (newNode TextBlock).

(** The type assertion to a paragraph pointer in its comma-ok form. *)
Definition isParagraph (h : Heap) (n : option NodeId) : bool :=
  match n with
  | None => false
  | Some i =>
      match h !! i with
      | Some x => bool_decide (data x = Paragraph)
      | None => false
      end
  end.

Inductive WalkStatus := WalkStop | WalkSkipChildren | WalkContinue.

End gast.

(** Modelled from the spec: package [extension/ast] (the three node types
    of a definition list) is not among the sources.  Section 3 of the spec
    gives a DefinitionList its [Offset] and its pending paragraph
    ([TemporaryParagraph] in the code), and a DefinitionDescription its
    [IsTight], false until the description closes. *)
Module ast.

Definition NewDefinitionList (h : Heap) (offset : Z) (para : option NodeId)
  : NodeId * Heap :=
  alloc h (newNode (DefinitionList offset para)).

Definition NewDefinitionTerm (h : Heap) : NodeId * Heap :=
  alloc h (newNode DefinitionTerm).

Definition NewDefinitionDescription (h : Heap) : NodeId * Heap :=
  alloc h (newNode (DefinitionDescription false)).

(** The comma-ok assertion to a DefinitionList pointer: the pointer, or
    nil when the node is of another type. *)
Definition asDefinitionList (h : Heap) (n : option NodeId) : option NodeId :=
  match n with
  | None => None
  | Some i =>
      match h !! i with
      | Some (mkNode (DefinitionList _ _) _ _ _ _) => Some i
      | _ => None
      end
  end.

(** Field accesses through a possibly nil DefinitionList pointer. *)
Definition Offset (h : Heap) (l : option NodeId) : exec Z :=
  match l with
  | None => Panic
  | Some i =>
      let! x := deref h i in
      match data x with
      | DefinitionList off _ => Ok off
      | _ => Panic
      end
  end.

Definition TemporaryParagraph (h : Heap) (l : option NodeId)
  : exec (option NodeId) :=
  match l with
  | None => Panic
  | Some i =>
      let! x := deref h i in
      match data x with
      | DefinitionList _ para => Ok para
      | _ => Panic
      end
  end.

Definition SetOffset (h : Heap) (l : option NodeId) (w : Z) : exec Heap :=
  match l with
  | None => Panic
  | Some i =>
      let! x := deref h i in
      match data x with
      | DefinitionList _ para => Ok (<[i := setData (DefinitionList w para) x]> h)
      | _ => Panic
      end
  end.

Definition SetTemporaryParagraph (h : Heap) (l : option NodeId)
    (para : option NodeId) : exec Heap :=
  match l with
  | None => Panic
  | Some i =>
      let! x := deref h i in
      match data x with
      | DefinitionList off _ => Ok (<[i := setData (DefinitionList off para) x]> h)
      | _ => Panic
      end
  end.

(** The assertion to a DefinitionDescription pointer without comma-ok:
    it panics on a node of another type. *)
Definition toDefinitionDescription (h : Heap) (n : NodeId) : exec NodeId :=
  let! x := deref h n in
  match data x with
  | DefinitionDescription _ => Ok n
  | _ => Panic
  end.

Definition IsTight (h : Heap) (d : NodeId) : exec bool :=
  let! x := deref h d in
  match data x with
  | DefinitionDescription t => Ok t
  | _ => Panic
  end.

Definition SetIsTight (h : Heap) (d : NodeId) (t : bool) : exec Heap :=
  let! x := deref h d in
  match data x with
  | DefinitionDescription _ => Ok (<[d := setData (DefinitionDescription t) x]> h)
  | _ => Panic
  end.

(** The kinds under which the render functions are registered. *)
Inductive NodeKind :=
| KindDocument | KindParagraph | KindTextBlock | KindOther
| KindDefinitionList | KindDefinitionTerm | KindDefinitionDescription.

#[global] Instance NodeKind_eq_dec : EqDecision NodeKind.
Proof. solve_decision. Defined.

Definition Kind (d : NodeData) : NodeKind :=
  match d with
  | Document => KindDocument
  | Paragraph => KindParagraph
  | TextBlock => KindTextBlock
  | OtherBlock => KindOther
  | DefinitionList _ _ => KindDefinitionList
  | DefinitionTerm => KindDefinitionTerm
  | DefinitionDescription _ => KindDefinitionDescription
  end.

End ast.

(** Modelled from the spec: package [util] is not among the sources.  The
    Indentation Analyzer of section 4.1 is kept abstract: the width of the
    leading blank space of a line read from a column (with the number of
    bytes it takes), the byte offset and padding that reach a given width,
    and the test for a blank line.  They are pure and cannot fail. *)
Module util.

Class Ops := {
  IndentWidth : list byte -> Z -> Z * Z;
  IndentPosition : list byte -> Z -> Z -> Z * Z;
  IsBlank : list byte -> bool
}.

End util.

(** Modelled from the spec: package [text] is not among the sources.  A
    reader gives the rest of the current line, the column of its cursor and
    the whole source, and its cursor can be advanced with a padding
    (sections 4.3 and 4.4); a segment can be trimmed of its trailing white
    space against the source (section 4.3). *)
Module text.

Class Reader (R : Type) := {
  PeekLine : R -> list byte;
  LineOffset : R -> Z;
  Source : R -> list byte;
  AdvanceAndSetPadding : R -> Z -> Z -> R;
  TrimRightSpace : Segment -> list byte -> Segment
}.

End text.

(** Modelled from the spec: package [parser] is not among the sources.
    Section 6 of the spec gives the states a block parser answers with;
    in goldmark they are single-bit flags joined with bitwise or. *)
Module parser.

Definition State := Z.
Definition Continue : State := 2.
Definition Close : State := 4.
Definition HasChildren : State := 8.
Definition NoChildren : State := 16.

Record Context := mkContext { BlockOffset : Z }.

End parser.

(** ** The block parsers of [extension/definition_list.go] *)

Definition colon : byte := ":"%byte.

Section Extension.

Context {R : Type} `{!text.Reader R} `{!util.Ops}.

(** What [Open] hands back: the node (nil for no match), the state, and
    the arena and the reader as the call leaves them. *)
Definition OpenResult : Type := option NodeId * parser.State * Heap * R.

Definition definitionListParser_Open
    (h : Heap) (parent : NodeId) (reader : R) (pc : parser.Context)
  : exec OpenResult :=
  match ast.asDefinitionList h (Some parent) with
  | Some _ => Ok (None, parser.NoChildren, h, reader)
  | None =>
      let line := text.PeekLine reader in
      let pos := parser.BlockOffset pc in
      let! c := index line pos in
      if negb (Byte.eqb c colon) then Ok (None, parser.NoChildren, h, reader)
      else
        let! last := gast.LastChild h parent in
        let! rest := sliceFrom line (pos + 1) in
        let w := (util.IndentWidth rest (pos + 1)).1 in
        if w <? 1 then Ok (None, parser.NoChildren, h, reader)
        else
          let w := if 8 <=? w then 5 else w in
          let w := w + (pos + 1) in
          if gast.isParagraph h last then
            let para := last in
            let! prev := match last with
                         | Some l => gast.PreviousSibling h l
                         | None => Panic
                         end in
            match ast.asDefinitionList h prev with
            | Some list =>
                let! h1 := ast.SetOffset h (Some list) w in
                let! h2 := ast.SetTemporaryParagraph h1 (Some list) para in
                Ok (Some list, parser.HasChildren, h2, reader)
            | None =>
                let '(list, h1) := ast.NewDefinitionList h w para in
                Ok (Some list, parser.HasChildren, h1, reader)
            end
          else
            match ast.asDefinitionList h last with
            | Some list =>
                let! h1 := ast.SetOffset h (Some list) w in
                let! h2 := ast.SetTemporaryParagraph h1 (Some list) None in
                Ok (Some list, parser.HasChildren, h2, reader)
            | None => Ok (None, parser.NoChildren, h, reader)
            end
  end.

Definition definitionListParser_Continue
    (h : Heap) (node : NodeId) (reader : R) (pc : parser.Context)
  : exec (parser.State * R) :=
  let line := text.PeekLine reader in
  if util.IsBlank line then
    Ok (Z.lor parser.Continue parser.HasChildren, reader)
  else
    let list := ast.asDefinitionList h (Some node) in
    let w := (util.IndentWidth line (text.LineOffset reader)).1 in
    let! off := ast.Offset h list in
    if w <? off then Ok (parser.Close, reader)
    else
      let '(pos, padding) :=
        util.IndentPosition line (text.LineOffset reader) off in
      Ok (Z.lor parser.Continue parser.HasChildren,
          text.AdvanceAndSetPadding reader pos padding).

Definition definitionListParser_Close
    (h : Heap) (node : NodeId) (reader : R) (pc : parser.Context) : exec Heap :=
  Ok h.

Definition definitionListParser_CanInterruptParagraph : bool := true.
Definition definitionListParser_CanAcceptIndentedLine : bool := false.

(** The loop of [definitionDescriptionParser.Open] over the lines of the
    pending paragraph: a new term per line, holding the trimmed line,
    appended to the list. *)
Fixpoint appendTerms (h : Heap) (lst : NodeId) (source : list byte)
    (segments : list Segment) : exec Heap :=
  match segments with
  | [] => Ok h
  | segment :: rest =>
      let '(term, h1) := ast.NewDefinitionTerm h in
      let! old := gast.Lines h1 term in
      let! h2 := gast.SetLines h1 term
                   (old ++ [text.TrimRightSpace segment source]) in
      let! h3 := gast.AppendChild h2 lst term in
      appendTerms h3 lst source rest
  end.

Definition definitionDescriptionParser_Open
    (h : Heap) (parent : NodeId) (reader : R) (pc : parser.Context)
  : exec OpenResult :=
  let line := text.PeekLine reader in
  let pos := parser.BlockOffset pc in
  let! c := index line pos in
  if negb (Byte.eqb c colon) then Ok (None, parser.NoChildren, h, reader)
  else
    let list := ast.asDefinitionList h (Some parent) in
    let! para := ast.TemporaryParagraph h list in
    let! h1 := ast.SetTemporaryParagraph h list None in
    let! h2 :=
      match para, list with
      | Some p, Some l =>
          let! lines := gast.Lines h1 p in
          let! h' := appendTerms h1 l (text.Source reader) lines in
          let! pp := gast.Parent h' p in
          match pp with
          | Some q => gast.RemoveChild h' q p
          | None => Panic
          end
      | Some _, None => Panic
      | None, _ => Ok h1
      end in
    let! off := ast.Offset h2 list in
    let! rest := sliceFrom line (pos + 1) in
    let '(cpos, padding) := util.IndentPosition rest (pos + 1) (off - pos - 1) in
    let reader' := text.AdvanceAndSetPadding reader cpos padding in
    let '(desc, h3) := ast.NewDefinitionDescription h2 in
    Ok (Some desc, parser.HasChildren, h3, reader').

Definition definitionDescriptionParser_Continue
    (h : Heap) (node : NodeId) (reader : R) (pc : parser.Context)
  : exec (parser.State * R) :=
  Ok (Z.lor parser.Continue parser.HasChildren, reader).

(** The body of the loop of [definitionDescriptionParser.Close] for a child
    that is a paragraph: a new text block takes the lines of the paragraph
    and replaces it among the children of the description. *)
Definition replaceByTextBlock (h : Heap) (desc paragraph : NodeId) : exec Heap :=
  let '(textBlock, ha) := gast.NewTextBlock h in
  let! ls := gast.Lines ha paragraph in
  let! hb := gast.SetLines ha textBlock ls in
  gast.ReplaceChild hb desc paragraph textBlock.

(** The loop itself: [gc] runs from the first child along [NextSibling]
    until nil.  Each round reads the next sibling of the node [gc] points
    to after the body has run, as the Go loop does. *)
Fixpoint closeLoop (fuel : nat) (h : Heap) (desc : NodeId) (gc : option NodeId)
  : exec Heap :=
  match gc with
  | None => Ok h
  | Some g =>
      match fuel with
      | O => OutOfFuel
      | S fuel' =>
          let! h1 :=
            if gast.isParagraph h (Some g) then replaceByTextBlock h desc g
            else Ok h in
          let! next := gast.NextSibling h1 g in
          closeLoop fuel' h1 desc next
      end
  end.

(** The loop is given one round more than the description has children:
    on a tree, where no node stands twice among the children, it never
    needs more. *)
Definition definitionDescriptionParser_Close
    (h : Heap) (node : NodeId) (reader : R) (pc : parser.Context) : exec Heap :=
  let! desc := ast.toDefinitionDescription h node in
  let! blank := gast.HasBlankPreviousLines h desc in
  let! h1 := ast.SetIsTight h desc (negb blank) in
  let! tight := ast.IsTight h1 desc in
  if tight then
    let! first := gast.FirstChild h1 desc in
    let! x := deref h1 desc in
    closeLoop (S (length (children x))) h1 desc first
  else Ok h1.

Definition definitionDescriptionParser_CanInterruptParagraph : bool := true.
Definition definitionDescriptionParser_CanAcceptIndentedLine : bool := false.

End Extension.

(** ** The HTML renderer *)

(** The writer, as the bytes written to it so far.  The code ignores the
    results of [WriteString]. *)
Definition BufWriter := string.
Definition WriteString (w : BufWriter) (s : string) : BufWriter := w +:+ s.

Definition error := string.

(** The line feed of the Go string literals. *)
Definition nl : string := String "010"%char EmptyString.

(** The renderer embeds the HTML configuration, whose type is kept
    abstract: no render function reads it. *)
Record DefinitionListHTMLRenderer (C : Type) := { Config : C }.
Arguments Config {C} _.

Definition RenderResult : Type := BufWriter * gast.WalkStatus * option error.

Definition NodeRendererFunc : Type :=
  BufWriter -> list byte -> Heap -> NodeId -> bool -> exec RenderResult.

Section Renderer.

Context {C : Type}.

Definition renderDefinitionList (r : DefinitionListHTMLRenderer C)
  : NodeRendererFunc := fun w source h n entering =>
  let w := if entering then WriteString w ("<dl>" +:+ nl)
           else WriteString w ("</dl>" +:+ nl) in
  Ok (w, gast.WalkContinue, None).

Definition renderDefinitionTerm (r : DefinitionListHTMLRenderer C)
  : NodeRendererFunc := fun w source h n entering =>
  let w := if entering then WriteString w "<dt>"
           else WriteString w ("</dt>" +:+ nl) in
  Ok (w, gast.WalkContinue, None).

Definition renderDefinitionDescription (r : DefinitionListHTMLRenderer C)
  : NodeRendererFunc := fun w source h node entering =>
  let! w :=
    if entering then
      let! n := ast.toDefinitionDescription h node in
      let! tight := ast.IsTight h n in
      if tight then Ok (WriteString w "<dd>")
      else Ok (WriteString w ("<dd>" +:+ nl))
    else Ok (WriteString w ("</dd>" +:+ nl)) in
  Ok (w, gast.WalkContinue, None).

(** The registry of render functions, keyed by node kind; registering
    under a kind replaces what was there. *)
Definition Registry : Type := ast.NodeKind -> option NodeRendererFunc.

Definition Register (reg : Registry) (kind : ast.NodeKind) (f : NodeRendererFunc)
  : Registry :=
  fun k => if decide (k = kind) then Some f else reg k.

Definition RegisterFuncs (r : DefinitionListHTMLRenderer C) (reg : Registry)
  : Registry :=
  let reg := Register reg ast.KindDefinitionList (renderDefinitionList r) in
  let reg := Register reg ast.KindDefinitionTerm (renderDefinitionTerm r) in
  Register reg ast.KindDefinitionDescription (renderDefinitionDescription r).

End Renderer.

(** ** The extension *)

Inductive BlockParser : Type :=
  | defaultDefinitionListParser
  | defaultDefinitionDescriptionParser.

Definition NewDefinitionListParser : BlockParser :=
  defaultDefinitionListParser.
Definition NewDefinitionDescriptionParser : BlockParser :=
  defaultDefinitionDescriptionParser.

(** The constructor of the renderer: [config] stands for the fresh HTML
    configuration, and each option, in the order given, sets what it sets
    in the configuration of the renderer. *)
Definition NewDefinitionListHTMLRenderer {C : Type} (config : C)
    (opts : list (C -> C)) : DefinitionListHTMLRenderer C :=
  {| Config := foldl (fun c opt => opt c) config opts |}.

Record PrioritizedValue (A : Type) := Prioritized {
  Value : A;
  Priority : Z
}.
Arguments Prioritized {A} _ _.
Arguments Value {A} _.
Arguments Priority {A} _.

(** Modelled from the spec: the markdown object is not among the sources;
    it is taken as the options its parser and its renderer have been
    given, in the order they were added. *)
Record Markdown (C : Type) := mkMarkdown {
  BlockParsers : list (PrioritizedValue BlockParser);
  NodeRenderers : list (PrioritizedValue (DefinitionListHTMLRenderer C))
}.
Arguments mkMarkdown {C} _ _.
Arguments BlockParsers {C} _.
Arguments NodeRenderers {C} _.

Definition Extend {C : Type} (config : C) (m : Markdown C) : Markdown C :=
  mkMarkdown
    (BlockParsers m ++ [ Prioritized NewDefinitionListParser 101;
                         Prioritized NewDefinitionDescriptionParser 102 ])
    (NodeRenderers m
       ++ [ Prioritized (NewDefinitionListHTMLRenderer config []) 500 ]).

(** ** A host for the parsers *)

(** Modelled from the spec: the Indentation Analyzer (section 4.1) and the
    line reader of the host parser are not among the sources.  This module
    gives one instance of each, used where a statement is evaluated on a
    concrete line: leading blank space is counted in columns, a tab
    reaching to the next multiple of four; the position of a width is the
    number of bytes that reach it, with the columns of overshoot as
    padding. *)
Module host.

Definition space : byte := " "%byte.
Definition tab : byte := x09.
Definition lf : byte := x0a.

Definition TabWidth (currentPos : Z) : Z := 4 - Z.rem currentPos 4.

Fixpoint indentWidthFrom (bs : list byte) (currentPos width pos : Z) : Z * Z :=
  match bs with
  | [] => (width, pos)
  | b :: t =>
      if Byte.eqb b space then indentWidthFrom t currentPos (width + 1) (pos + 1)
      else if Byte.eqb b tab then
        indentWidthFrom t currentPos (width + TabWidth (currentPos + width)) (pos + 1)
      else (width, pos)
  end.

Definition IndentWidth (bs : list byte) (currentPos : Z) : Z * Z :=
  indentWidthFrom bs currentPos 0 0.

Fixpoint indentPositionFrom (bs : list byte) (currentPos width w i : Z) : Z * Z :=
  match bs with
  | [] => (w, i)
  | b :: t =>
      if Byte.eqb b tab && (w <? width) then
        indentPositionFrom t currentPos width (w + TabWidth (currentPos + w)) (i + 1)
      else if Byte.eqb b space && (w <? width) then
        indentPositionFrom t currentPos width (w + 1) (i + 1)
      else (w, i)
  end.

Definition IndentPosition (bs : list byte) (currentPos width : Z) : Z * Z :=
  if width =? 0 then (0, 0)
  else
    let '(w, i) := indentPositionFrom bs currentPos width 0 0 in
    if width <=? w then (i, w - width) else (-1, -1).

Definition IsSpace (b : byte) : bool :=
  Byte.eqb b space || Byte.eqb b tab || Byte.eqb b lf
  || Byte.eqb b x0b || Byte.eqb b x0c || Byte.eqb b x0d.

Definition IsBlank (bs : list byte) : bool := forallb IsSpace bs.

#[export] Instance ops : util.Ops :=
  {| util.IndentWidth := IndentWidth;
     util.IndentPosition := IndentPosition;
     util.IsBlank := IsBlank |}.

(** The reader: the source, the byte where the current line begins, and
    the rest of the current line as a segment with its padding. *)
Record reader := mkReader {
  source : list byte;
  head : Z;
  pos : Segment
}.

Definition slice (bs : list byte) (start stop : Z) : list byte :=
  take (Z.to_nat (stop - start)) (drop (Z.to_nat start) bs).

Definition PeekLine (r : reader) : list byte :=
  replicate (Z.to_nat (Padding (pos r))) space
    ++ slice (source r) (Start (pos r)) (Stop (pos r)).

(** The column of the cursor, counted from the beginning of the line. *)
Fixpoint columnOf (bs : list byte) (v : Z) : Z :=
  match bs with
  | [] => v
  | b :: t => columnOf t (if Byte.eqb b tab then v + TabWidth v else v + 1)
  end.

Definition LineOffset (r : reader) : Z :=
  columnOf (slice (source r) (head r) (Start (pos r))) 0 - Padding (pos r).

(** Advancing by [n] bytes of the peeked line: the padding is used up
    first, the cursor never leaves the line. *)
Definition Advance (r : reader) (n : Z) : reader :=
  let p := pos r in
  let fromPadding := Z.min (Z.max n 0) (Padding p) in
  let fromLine := Z.min (Z.max n 0 - fromPadding) (Stop p - Start p) in
  mkReader (source r) (head r)
    (NewSegmentPadding (Start p + fromLine) (Stop p) (Padding p - fromPadding)).

Definition AdvanceAndSetPadding (r : reader) (n padding : Z) : reader :=
  let r1 := Advance r n in
  if Padding (pos r1) <? padding
  then mkReader (source r1) (head r1)
         (NewSegmentPadding (Start (pos r1)) (Stop (pos r1)) padding)
  else r1.

Fixpoint trimRightSpaceLength (rev_bs : list byte) : Z :=
  match rev_bs with
  | [] => 0
  | b :: t => if IsSpace b then 1 + trimRightSpaceLength t else 0
  end.

(** The segment without the white space at its end. *)
Definition TrimRightSpace (t : Segment) (buffer : list byte) : Segment :=
  let v := slice buffer (Start t) (Stop t) in
  let l := trimRightSpaceLength (rev v) in
  if l =? Z.of_nat (length v) then NewSegmentPadding (Start t) (Start t) 0
  else NewSegmentPadding (Start t) (Stop t - l) (Padding t).

#[export] Instance lineReader : text.Reader reader :=
  {| text.PeekLine := PeekLine;
     text.LineOffset := LineOffset;
     text.Source := source;
     text.AdvanceAndSetPadding := AdvanceAndSetPadding;
     text.TrimRightSpace := TrimRightSpace |}.

(** A reader at the beginning of a source of one line. *)
Definition oneLine (bs : list byte) : reader :=
  mkReader bs 0 (NewSegmentPadding 0 (Z.of_nat (length bs)) 0).

End host.

(** ** The registry at work *)

(** Modelled from the spec: the renderer that owns the registry is not
    among the sources.  Section 6 of the spec keys the registry by node
    kind; a node whose kind has no entry here is left to the host and writes
    nothing.  A pass is the sequence of visits (node, entering) of a walk
    over the tree. *)
Definition renderNode (reg : Registry) : NodeRendererFunc :=
  fun w source h n entering =>
  let! x := deref h n in
  match reg (ast.Kind (data x)) with
  | Some f => f w source h n entering
  | None => Ok (w, gast.WalkContinue, None)
  end.

Definition noFuncs : Registry := fun _ => None.

Fixpoint renderPass (reg : Registry) (w : BufWriter) (source : list byte)
    (h : Heap) (visits : list (NodeId * bool)) : exec BufWriter :=
  match visits with
  | [] => Ok w
  | (n, entering) :: rest =>
      let! res := renderNode reg w source h n entering in
      renderPass reg res.1.1 source h rest
  end.

(** ** Vocabulary of the statements *)

(** The tags of the table in section 6 of the spec. *)
Definition listTag (entering : bool) : string :=
  if entering then "<dl>" +:+ nl else "</dl>" +:+ nl.
Definition termTag (entering : bool) : string :=
  if entering then "<dt>" else "</dt>" +:+ nl.
Definition descriptionTag (tight entering : bool) : string :=
  if entering then (if tight then "<dd>" else "<dd>" +:+ nl)
  else "</dd>" +:+ nl.

(** What one visit writes is a function of the node and of the entering
    flag alone. *)
Definition visitTag (d : NodeData) (entering : bool) : string :=
  match d with
  | DefinitionList _ _ => listTag entering
  | DefinitionTerm => termTag entering
  | DefinitionDescription tight => descriptionTag tight entering
  | _ => ""
  end.

(** A definition term holding one line. *)
Definition termNode (lst : NodeId) (s : Segment) : Node :=
  mkNode DefinitionTerm (Some lst) [] [s] false.

(** The text block that takes the place of a paragraph. *)
Definition textBlockNode (desc : NodeId) (ls : list Segment) : Node :=
  mkNode TextBlock (Some desc) [] ls false.

(** The children of [n] form a sequence without repetition, and each of
    them exists and names [n] as its parent. *)
Definition attached (h : Heap) (n : NodeId) : bool :=
  match h !! n with
  | None => false
  | Some x =>
      bool_decide (NoDup (children x))
      && forallb (fun c => match h !! c with
                           | Some cx => bool_decide (parent cx = Some n)
                           | None => false
                           end) (children x)
  end.

Definition firstParagraph (h : Heap) (l : list NodeId) : option NodeId :=
  find (fun c => gast.isParagraph h (Some c)) l.

Definition isDefinitionList (h : Heap) (n : NodeId) : Prop :=
  is_Some (ast.asDefinitionList h (Some n)).

Definition isDefinitionDescription (h : Heap) (n : NodeId) : Prop :=
  exists x tight, h !! n = Some x /\ data x = DefinitionDescription tight.

(** The character at the block offset exists and is not the marker. *)
Definition notMarker (line : list byte) (pos : Z) : Prop :=
  exists c, index line pos = Ok c /\ c <> colon.

(** The last child of the parent is neither a paragraph nor a list. *)
Definition noTermContext (h : Heap) (parent : NodeId) : Prop :=
  exists last, gast.LastChild h parent = Ok last
    /\ gast.isParagraph h last = false /\ ast.asDefinitionList h last = None.

(** The three ways [definitionListParser.Open] chooses its list. *)
Definition reusesListBeforeParagraph
    (h : Heap) (last : option NodeId) (l : NodeId) (w : Z) (h' : Heap) : Prop :=
  exists para x off tp,
    last = Some para /\ gast.isParagraph h last = true
    /\ gast.PreviousSibling h para = Ok (Some l)
    /\ h !! l = Some x /\ data x = DefinitionList off tp
    /\ h' = <[l := setData (DefinitionList w (Some para)) x]> h.

Definition createsList
    (h : Heap) (last : option NodeId) (l : NodeId) (w : Z) (h' : Heap) : Prop :=
  exists para prev,
    last = Some para /\ gast.isParagraph h last = true
    /\ gast.PreviousSibling h para = Ok prev
    /\ ast.asDefinitionList h prev = None
    /\ l = length h
    /\ h' = h ++ [newNode (DefinitionList w (Some para))].

Definition reusesLastList
    (h : Heap) (last : option NodeId) (l : NodeId) (w : Z) (h' : Heap) : Prop :=
  exists x off tp,
    last = Some l /\ gast.isParagraph h last = false
    /\ h !! l = Some x /\ data x = DefinitionList off tp
    /\ h' = <[l := setData (DefinitionList w None) x]> h.

Section Statements.

Context {R : Type} `{!text.Reader R} `{!util.Ops}.

(** The width of the blank space after the marker, read from the column
    after it. *)
Definition widthAfterMarker (line : list byte) (pos : Z) : Z :=
  (util.IndentWidth (drop (Z.to_nat (pos + 1)) line) (pos + 1)).1.

(** The continuation offset of the list. *)
Definition listOffset (line : list byte) (pos : Z) : Z :=
  let w := widthAfterMarker line pos in
  (if 8 <=? w then 5 else w) + pos + 1.

(** The nodes from [length h] on are the terms of the lines [segs], in
    their order. *)
Definition termsAdded (h h' : Heap) (lst : NodeId) (src : list byte)
    (segs : list Segment) : Prop :=
  forall (i : nat) seg, segs !! i = Some seg ->
    h' !! (length h + i)%nat = Some (termNode lst (text.TrimRightSpace seg src)).

(** The arena after the terms of a pending paragraph [para] (the node
    [px], a child of [q]) have been appended to the list [lst] and the
    paragraph has been detached. *)
Definition withTerms (h : Heap) (lst para q : NodeId) (x px qx : Node)
    (off : Z) (src : list byte) : Heap :=
  let x1 := setData (DefinitionList off None) x in
  let x2 := setChildren
              (children x1 ++ seq (length h) (length (lines px))) x1 in
  let tn := map (fun seg => termNode lst (text.TrimRightSpace seg src))
              (lines px) in
  let qn := if decide (q = lst) then x2 else qx in
  let qn' := setChildren (remove_id para (children qn)) qn in
  let pn' := setParent None (if decide (q = para) then qn' else px) in
  <[para := pn']> (<[q := qn']> (<[lst := x2]> h ++ tn)).

End Statements.

(** The pending paragraph of a list, when there is one, is a paragraph
    attached to a node of the arena. *)
Definition pendingAttached (h : Heap) (tp : option NodeId) : bool :=
  match tp with
  | None => true
  | Some p =>
      match h !! p with
      | Some px =>
          bool_decide (data px = Paragraph)
          && match parent px with
             | Some q => bool_decide (is_Some (h !! q))
             | None => false
             end
      | None => false
      end
  end.


(** A renderer value; its configuration is never read. *)
Definition plainRenderer : DefinitionListHTMLRenderer unit := {| Config := tt |}.

(** The children of a node of the arena, and how many of a sequence of
    nodes are paragraphs. *)
Definition childrenOf (h : Heap) (n : NodeId) : list NodeId :=
  match h !! n with
  | Some x => children x
  | None => []
  end.

Fixpoint paragraphCount (h : Heap) (l : list NodeId) : nat :=
  match l with
  | [] => O
  | c :: t =>
      if gast.isParagraph h (Some c) then S (paragraphCount h t)
      else paragraphCount h t
  end.

(** Every visited node is in the arena. *)
Definition visitsInArena (h : Heap) (visits : list (NodeId * bool)) : bool :=
  forallb (fun v => match h !! v.1 with Some _ => true | None => false end)
    visits.

(** The tags of a sequence of visits, one after the other. *)
Fixpoint passTags (h : Heap) (visits : list (NodeId * bool)) : string :=
  match visits with
  | [] => ""
  | (n, entering) :: rest =>
      match h !! n with
      | Some x => visitTag (data x) entering +:+ passTags h rest
      | None => passTags h rest
      end
  end.

(** ** A host parser and renderer *)

(** Modelled from the spec: the host parser that drives the block parsers,
    its paragraph recogniser, and its renderers for paragraphs, text blocks
    and the text of a block are not among the sources.  Section 2 of the
    spec gives the control flow: each line goes to the list opener and the
    description opener in this order, that of their priorities in
    [Extend]; once a list is open its continuation
    is asked first; a node that closes gets its [Close]; rendering is a
    later pass.  The list opener may interrupt a paragraph (section 4.2),
    the description opener runs with a DefinitionList as parent (section
    4.3), and the rest of the line of a description is ordinary block
    content (section 4.3), here a paragraph.  A node that opens records
    whether a blank line came before it (section 4.5).  A paragraph renders
    inside a paragraph tag followed by a line feed, a text block as its
    bare text (section 8). *)
Module driver.

Import (hints) host.

(** The lines of a source, each up to and with its line feed. *)
Fixpoint lineSegmentsFrom (bs : list byte) (start cur : Z) : list Segment :=
  match bs with
  | [] => if start <? cur then [NewSegmentPadding start cur 0] else []
  | b :: t =>
      if Byte.eqb b host.lf
      then NewSegmentPadding start (cur + 1) 0
             :: lineSegmentsFrom t (cur + 1) (cur + 1)
      else lineSegmentsFrom t start (cur + 1)
  end.

Definition lineSegments (source : list byte) : list Segment :=
  lineSegmentsFrom source 0 0.

Definition readerOn (source : list byte) (line : Segment) : host.reader :=
  host.mkReader source (Start line) line.

(** The block offset: the position of the first character of the line
    that is not blank space. *)
Definition contextOf (r : host.reader) : parser.Context :=
  parser.mkContext (host.IndentWidth (host.PeekLine r) (host.LineOffset r)).2.

(** The rest of the line without its leading blank space. *)
Definition contentOf (r : host.reader) : Segment :=
  let skip := (host.IndentWidth (host.PeekLine r) (host.LineOffset r)).2 in
  NewSegmentPadding (Start (host.pos r) + skip) (Stop (host.pos r)) 0.

Definition setBlankPreviousLines (b : bool) (n : Node) : Node :=
  mkNode (data n) (parent n) (children n) (lines n) b.

(** A node that has opened becomes the last child of its parent. *)
Definition attach (h : Heap) (parent node : NodeId) (blankBefore : bool)
  : exec Heap :=
  let! x := deref h node in
  gast.AppendChild (<[node := setBlankPreviousLines blankBefore x]> h) parent node.

Definition openParagraph (h : Heap) (parent : NodeId) (r : host.reader)
    (blankBefore : bool) : exec (NodeId * Heap) :=
  let '(p, h1) := alloc h (mkNode Paragraph None [] [contentOf r] blankBefore) in
  let! h2 := gast.AppendChild h1 parent p in
  Ok (p, h2).

Definition continueParagraph (h : Heap) (p : NodeId) (r : host.reader)
  : exec Heap :=
  let! ls := gast.Lines h p in
  gast.SetLines h p (ls ++ [contentOf r]).

(** The openers on the rest of a line, under [parent]; [opened] are the
    open nodes, innermost first. *)
Fixpoint openBlocks (fuel : nat) (h : Heap) (parent : NodeId) (r : host.reader)
    (blankBefore : bool) (opened : list NodeId) : exec (Heap * list NodeId) :=
  match fuel with
  | O => OutOfFuel
  | S fuel' =>
      if host.IsBlank (host.PeekLine r) then Ok (h, opened)
      else
        let! res := definitionListParser_Open h parent r (contextOf r) in
        match res with
        | (Some l, _, h1, r1) =>
            let! h2 := attach h1 parent l blankBefore in
            openBlocks fuel' h2 l r1 blankBefore (l :: opened)
        | (None, _, _, _) =>
            match ast.asDefinitionList h (Some parent) with
            | Some _ =>
                let! res := definitionDescriptionParser_Open h parent r (contextOf r) in
                match res with
                | (Some d, _, h1, r1) =>
                    let! h2 := attach h1 parent d blankBefore in
                    openBlocks fuel' h2 d r1 blankBefore (d :: opened)
                | (None, _, _, _) =>
                    let! res := openParagraph h parent r blankBefore in
                    Ok (res.2, res.1 :: opened)
                end
            | None =>
                let! res := openParagraph h parent r blankBefore in
                Ok (res.2, res.1 :: opened)
            end
        end
  end.

Definition closeNode (h : Heap) (n : NodeId) (r : host.reader) : exec Heap :=
  let! x := deref h n in
  match data x with
  | DefinitionDescription _ =>
      definitionDescriptionParser_Close h n r (contextOf r)
  | DefinitionList _ _ => definitionListParser_Close h n r (contextOf r)
  | _ => Ok h
  end.

(** Closing open nodes, innermost first. *)
Fixpoint closeNodes (h : Heap) (ns : list NodeId) (r : host.reader) : exec Heap :=
  match ns with
  | [] => Ok h
  | n :: rest => let! h1 := closeNode h n r in closeNodes h1 rest r
  end.

(** The continuation of the open nodes, outermost first: [outer] are the
    nodes already continued (innermost first), [inner] those still to ask.
    A list that closes takes the nodes inside it along. *)
Fixpoint continueOpened (h : Heap) (outer inner : list NodeId) (r : host.reader)
  : exec (Heap * list NodeId * host.reader) :=
  match inner with
  | [] => Ok (h, outer, r)
  | n :: rest =>
      let! x := deref h n in
      match data x with
      | DefinitionList _ _ =>
          let! res := definitionListParser_Continue h n r (contextOf r) in
          if Z.eqb res.1 parser.Close then
            let! h1 := closeNodes h (rev (n :: rest)) r in
            Ok (h1, outer, r)
          else continueOpened h (n :: outer) rest res.2
      | DefinitionDescription _ =>
          let! res := definitionDescriptionParser_Continue h n r (contextOf r) in
          continueOpened h (n :: outer) rest res.2
      | _ => continueOpened h (n :: outer) rest r
      end
  end.

Record State := mkState {
  arena : Heap;
  opened : list NodeId;
  blank : bool
}.

(** The document is node 0. *)
Definition start : State := mkState [newNode Document] [] false.

Definition processLine (source : list byte) (st : State) (line : Segment)
  : exec State :=
  let r0 := readerOn source line in
  let fuel := S (S (length (host.PeekLine r0))) in
  let! res := continueOpened (arena st) [] (rev (opened st)) r0 in
  let '(h, open1, r) := res in
  let lineBlank := host.IsBlank (host.PeekLine r) in
  match open1 with
  | n :: rest =>
      if gast.isParagraph h (Some n) then
        if lineBlank then Ok (mkState h rest true)
        else
          let! q := gast.Parent h n in
          match q with
          | None => Panic
          | Some q =>
              let! res := definitionListParser_Open h q r (contextOf r) in
              match res with
              | (Some l, _, h1, r1) =>
                  let! h2 := attach h1 q l (blank st) in
                  let! res := openBlocks fuel h2 l r1 (blank st) (l :: rest) in
                  Ok (mkState res.1 res.2 false)
              | (None, _, _, _) =>
                  let! h1 := continueParagraph h n r in
                  Ok (mkState h1 open1 false)
              end
          end
      else if lineBlank then Ok (mkState h open1 true)
      else
        let! res := openBlocks fuel h n r (blank st) open1 in
        Ok (mkState res.1 res.2 false)
  | [] =>
      if lineBlank then Ok (mkState h [] true)
      else
        let! res := openBlocks fuel h 0%nat r (blank st) [] in
        Ok (mkState res.1 res.2 false)
  end.

Fixpoint processLines (source : list byte) (st : State) (ls : list Segment)
  : exec State :=
  match ls with
  | [] => Ok st
  | l :: rest =>
      let! st1 := processLine source st l in
      processLines source st1 rest
  end.

Definition Parse (source : list byte) : exec Heap :=
  let! st := processLines source start (lineSegments source) in
  closeNodes (arena st) (opened st)
    (readerOn source (NewSegmentPadding (Z.of_nat (length source))
                        (Z.of_nat (length source)) 0)).

(** The text of a block: its lines without the white space at their ends,
    joined by line feeds. *)
Definition lineText (source : list byte) (s : Segment) : string :=
  let t := host.TrimRightSpace s source in
  string_of_list_byte (host.slice source (Start t) (Stop t)).

Fixpoint joinLines (ls : list string) : string :=
  match ls with
  | [] => ""
  | [l] => l
  | l :: rest => l +:+ nl +:+ joinLines rest
  end.

Definition blockText (source : list byte) (x : Node) : string :=
  joinLines (map (lineText source) (lines x)).

Definition renderParagraph : NodeRendererFunc := fun w source h n entering =>
  let w := if entering then WriteString w "<p>"
           else WriteString w ("</p>" +:+ nl) in
  Ok (w, gast.WalkContinue, None).

Definition hostFuncs : Registry :=
  Register noFuncs ast.KindParagraph renderParagraph.

(** The walk: a node is entered, the text of its own lines and its
    children follow, and it is exited. *)
Fixpoint walk (fuel : nat) (reg : Registry) (source : list byte) (h : Heap)
    (w : BufWriter) (n : NodeId) : exec BufWriter :=
  match fuel with
  | O => OutOfFuel
  | S fuel' =>
      let! x := deref h n in
      let! res := renderNode reg w source h n true in
      let w1 := WriteString res.1.1 (blockText source x) in
      let! w2 := foldl (fun acc c => let! wa := acc in walk fuel' reg source h wa c)
                   (Ok w1) (children x) in
      let! res := renderNode reg w2 source h n false in
      Ok res.1.1
  end.

(** Markdown in, HTML out, with the extension in place. *)
Definition Convert (source : list byte) : exec string :=
  let! h := Parse source in
  walk (length h) (RegisterFuncs plainRenderer hostFuncs) source h "" 0%nat.

(** A line of plain text: not empty, no white space at either end, no
    line feed inside. *)
Definition plainLine (bs : list byte) : bool :=
  match bs, rev bs with
  | first :: _, final :: _ =>
      negb (host.IsSpace first) && negb (host.IsSpace final)
  | _, _ => false
  end
  && forallb (fun c => negb (Byte.eqb c host.lf)) bs.

End driver.

(** ** Concrete documents *)

Module Examples.

Definition bytes (s : string) : list byte := list_byte_of_string s.

Definition atColumn0 : parser.Context := parser.mkContext 0.

(** The source of a term, a description, a blank line and an indented
    line: 6, 8, 1 and 6 bytes. *)
Definition appleSource : list byte :=
  bytes ("Apple" +:+ nl +:+ ": Fruit" +:+ nl +:+ nl +:+ "  Red" +:+ nl).

Definition line1 : host.reader :=
  host.mkReader appleSource 0 (NewSegmentPadding 0 6 0).
Definition line2 : host.reader :=
  host.mkReader appleSource 6 (NewSegmentPadding 6 14 0).
Definition line3 : host.reader :=
  host.mkReader appleSource 14 (NewSegmentPadding 14 15 0).
Definition line4 : host.reader :=
  host.mkReader appleSource 15 (NewSegmentPadding 15 21 0).

(** The document holds the paragraph of the first line. *)
Definition paragraphHeap : Heap :=
  [ mkNode Document None [1%nat] [] false;
    mkNode Paragraph (Some 0%nat) [] [NewSegmentPadding 0 6 0] false ].

(** The list opener has run on the second line and the list is attached. *)
Definition pendingHeap : Heap :=
  [ mkNode Document None [1%nat; 2%nat] [] false;
    mkNode Paragraph (Some 0%nat) [] [NewSegmentPadding 0 6 0] false;
    mkNode (DefinitionList 2 (Some 1%nat)) (Some 0%nat) [] [] false ].

(** The list with its term and a description that holds two paragraphs,
    the second one after a blank line. *)
Definition twoParagraphs : Heap :=
  [ mkNode Document None [1%nat] [] false;
    mkNode (DefinitionList 2 None) (Some 0%nat) [2%nat; 3%nat] [] false;
    mkNode DefinitionTerm (Some 1%nat) [] [NewSegmentPadding 0 5 0] false;
    mkNode (DefinitionDescription false) (Some 1%nat) [4%nat; 5%nat] [] false;
    mkNode Paragraph (Some 3%nat) [] [NewSegmentPadding 8 14 0] false;
    mkNode Paragraph (Some 3%nat) [] [NewSegmentPadding 17 21 0] true ].

(** A source whose second line has no space after the marker. *)
Definition noSpaceSource : list byte :=
  bytes ("Apple" +:+ nl +:+ ":Fruit" +:+ nl).
Definition noSpaceLine : host.reader :=
  host.mkReader noSpaceSource 6 (NewSegmentPadding 6 13 0).

(** The walk over the list of [twoParagraphs], as visits of its nodes. *)
Definition listVisits : list (NodeId * bool) :=
  [ (1%nat, true); (2%nat, true); (2%nat, false);
    (3%nat, true); (3%nat, false); (1%nat, false) ].

(** A list whose pending paragraph has been taken out of the document. *)
Definition detachedPending : Heap :=
  [ mkNode Document None [2%nat] [] false;
    mkNode Paragraph None [] [NewSegmentPadding 0 6 0] false;
    mkNode (DefinitionList 2 (Some 1%nat)) (Some 0%nat) [] [] false ].

(** A description that holds one paragraph, with no blank line before. *)
Definition oneParagraph : Heap :=
  [ mkNode Document None [1%nat] [] false;
    mkNode (DefinitionList 2 None) (Some 0%nat) [2%nat; 3%nat] [] false;
    mkNode DefinitionTerm (Some 1%nat) [] [NewSegmentPadding 0 5 0] false;
    mkNode (DefinitionDescription false) (Some 1%nat) [4%nat] [] false;
    mkNode Paragraph (Some 3%nat) [] [NewSegmentPadding 8 14 0] false ].

End Examples.

(** * Properties *)

(** ** Outcomes, indexing and the arena *)

Lemma bind_Ok {A B} (m : exec A) (k : A -> exec B) (b : B) :
  bind m k = Ok b -> exists a, m = Ok a /\ k a = Ok b.
Proof. destruct m; simpl; intros E; try discriminate; eauto. Qed.

Lemma deref_Ok h n x : deref h n = Ok x <-> h !! n = Some x.
Proof. unfold deref. destruct (h !! n); split; congruence. Qed.

Lemma deref_Some h n x : h !! n = Some x -> deref h n = Ok x.
Proof. apply deref_Ok. Qed.

Lemma byte_eqb_false (a b : byte) : Byte.eqb a b = false <-> a <> b.
Proof.
  split.
  - intros E ->. rewrite (Byte.byte_dec_lb eq_refl) in E. discriminate.
  - intros N. destruct (Byte.eqb a b) eqn:E; [|done].
    apply Byte.byte_dec_bl in E. done.
Qed.

Lemma index_Ok_bounds line pos c :
  index line pos = Ok c -> 0 <= pos < Z.of_nat (length line).
Proof.
  unfold index. destruct (0 <=? pos) eqn:E; [|discriminate].
  destruct (line !! Z.to_nat pos) eqn:L; [|discriminate]. intros _.
  apply lookup_lt_Some in L. lia.
Qed.

Lemma sliceFrom_Ok bs i rest :
  sliceFrom bs i = Ok rest -> rest = drop (Z.to_nat i) bs.
Proof. unfold sliceFrom. case_match; congruence. Qed.

Lemma sliceFrom_after_index line pos c :
  index line pos = Ok c ->
  sliceFrom line (pos + 1) = Ok (drop (Z.to_nat (pos + 1)) line).
Proof.
  intros B%index_Ok_bounds. unfold sliceFrom.
  replace (0 <=? pos + 1) with true by lia.
  replace (pos + 1 <=? Z.of_nat (length line)) with true by lia. done.
Qed.

Lemma lookup_snoc_new (h : Heap) (x : Node) : (h ++ [x]) !! length h = Some x.
Proof. rewrite lookup_app_r by lia. by rewrite Nat.sub_diag. Qed.

Lemma insert_snoc_new (h : Heap) (x y : Node) :
  <[length h := y]> (h ++ [x]) = h ++ [y].
Proof.
  replace (length h) with (length h + 0)%nat at 1 by lia.
  by rewrite insert_app_r.
Qed.

Lemma deref_snoc_at (h : Heap) (x : Node) (n : nat) :
  length h = n -> deref (h ++ [x]) n = Ok x.
Proof. intros <-. apply deref_Some, lookup_snoc_new. Qed.

Lemma insert_snoc_at (h : Heap) (x y : Node) (n : nat) :
  length h = n -> <[n := y]> (h ++ [x]) = h ++ [y].
Proof. intros <-. apply insert_snoc_new. Qed.

Lemma insert_snoc_old (h : Heap) (x y : Node) (i : nat) :
  (i < length h)%nat -> <[i := y]> (h ++ [x]) = <[i := y]> h ++ [x].
Proof. intros. by rewrite insert_app_l. Qed.

(** ** Sequences of children *)

Lemma remove_id_not_in v l : v ∉ remove_id v l.
Proof.
  induction l as [|x t IH]; simpl; [apply not_elem_of_nil|].
  case_decide as E; [done|]. rewrite elem_of_cons.
  intros [->|I]; [by apply E | by apply IH].
Qed.

Lemma remove_id_absent v l : v ∉ l -> remove_id v l = l.
Proof.
  induction l as [|x t IH]; simpl; [done|].
  rewrite elem_of_cons. intros N. case_decide as E.
  - destruct N. by left.
  - f_equal. apply IH. intros I. destruct N. by right.
Qed.

Lemma next_in_middle pre g rest :
  NoDup (pre ++ g :: rest) -> next_in (pre ++ g :: rest) g = head rest.
Proof.
  induction pre as [|a pre IH]; simpl; intros ND.
  - by rewrite decide_True.
  - apply NoDup_cons in ND as [Na ND].
    rewrite decide_False; [by apply IH|].
    intros ->. apply Na. rewrite elem_of_app, elem_of_cons. tauto.
Qed.

Lemma replace_in_middle pre g rest tb :
  NoDup (pre ++ g :: rest) -> tb ∉ pre ++ g :: rest ->
  remove_id g (insert_before g tb (pre ++ g :: rest)) = pre ++ tb :: rest.
Proof.
  induction pre as [|a pre IH]; simpl; intros ND Ntb.
  - rewrite decide_True by done. simpl.
    apply NoDup_cons in ND as [Ng _].
    rewrite decide_False by (intros ->; apply Ntb; by left).
    rewrite decide_True by done. f_equal. by apply remove_id_absent.
  - apply NoDup_cons in ND as [Na ND].
    assert (a <> g).
    { intros ->. apply Na. rewrite elem_of_app, elem_of_cons. tauto. }
    rewrite decide_False by done. simpl. rewrite decide_False by done.
    f_equal. apply IH; [done|]. intros I. apply Ntb. by right.
Qed.

(** ** Nodes of a definition list *)

Lemma asDefinitionList_Some h n l :
  ast.asDefinitionList h n = Some l ->
  n = Some l /\ exists x off para, h !! l = Some x /\ data x = DefinitionList off para.
Proof.
  unfold ast.asDefinitionList. destruct n as [i|]; [|discriminate].
  destruct (h !! i) as [[d p c ls b]|] eqn:E; [|discriminate].
  destruct d; try discriminate. intros [= <-]. split; [done|]. eauto.
Qed.

Lemma asDefinitionList_of_data h l x off para :
  h !! l = Some x -> data x = DefinitionList off para ->
  ast.asDefinitionList h (Some l) = Some l.
Proof.
  intros Hx D. unfold ast.asDefinitionList. rewrite Hx.
  destruct x; simpl in D. by subst.
Qed.

Lemma asDefinitionList_None h i :
  ast.asDefinitionList h (Some i) = None ->
  forall x off para, h !! i = Some x -> data x <> DefinitionList off para.
Proof.
  intros E x off para Hx D.
  rewrite (asDefinitionList_of_data _ _ _ _ _ Hx D) in E. discriminate.
Qed.

Lemma SetOffset_Ok h l w h1 :
  ast.SetOffset h (Some l) w = Ok h1 ->
  exists x off para, h !! l = Some x /\ data x = DefinitionList off para
    /\ h1 = <[l := setData (DefinitionList w para) x]> h.
Proof.
  unfold ast.SetOffset. intros E. apply bind_Ok in E as (x & Ex & E).
  apply deref_Ok in Ex. destruct (data x) eqn:D; try discriminate.
  injection E as <-. eauto 10.
Qed.

Lemma SetTemporaryParagraph_Ok h l p h1 :
  ast.SetTemporaryParagraph h (Some l) p = Ok h1 ->
  exists x off para, h !! l = Some x /\ data x = DefinitionList off para
    /\ h1 = <[l := setData (DefinitionList off p) x]> h.
Proof.
  unfold ast.SetTemporaryParagraph. intros E. apply bind_Ok in E as (x & Ex & E).
  apply deref_Ok in Ex. destruct (data x) eqn:D; try discriminate.
  injection E as <-. eauto 10.
Qed.

Lemma set_offset_then_paragraph h l w p h1 h2 :
  ast.SetOffset h (Some l) w = Ok h1 ->
  ast.SetTemporaryParagraph h1 (Some l) p = Ok h2 ->
  exists x off para, h !! l = Some x /\ data x = DefinitionList off para
    /\ h2 = <[l := setData (DefinitionList w p) x]> h.
Proof.
  intros E1 E2.
  apply SetOffset_Ok in E1 as (x & off & para & Hx & D & ->).
  apply SetTemporaryParagraph_Ok in E2 as (y & off' & para' & Hy & D' & ->).
  assert (l < length h)%nat by (eapply lookup_lt_Some; eauto).
  rewrite list_lookup_insert_eq in Hy by done. injection Hy as <-.
  simpl in D'. injection D' as <- <-.
  exists x, off, para. split; [done|]. split; [done|].
  by rewrite list_insert_insert_eq.
Qed.

Lemma Offset_insert h l x w p :
  h !! l = Some x ->
  ast.Offset (<[l := setData (DefinitionList w p) x]> h) (Some l) = Ok w.
Proof.
  intros Hx. unfold ast.Offset, deref.
  rewrite list_lookup_insert_eq by (eapply lookup_lt_Some; eauto). done.
Qed.

Lemma Offset_alloc h w p :
  ast.Offset (h ++ [newNode (DefinitionList w p)]) (Some (length h)) = Ok w.
Proof. unfold ast.Offset. by rewrite deref_snoc_at. Qed.

Lemma isParagraph_Some h last :
  gast.isParagraph h last = true -> exists p, last = Some p.
Proof. destruct last; [eauto | discriminate]. Qed.

(** ** Tree operations on a node just made *)

Lemma Lines_new h x : gast.Lines (h ++ [x]) (length h) = Ok (lines x).
Proof. unfold gast.Lines. by rewrite deref_snoc_at. Qed.

Lemma SetLines_new h x ls :
  gast.SetLines (h ++ [x]) (length h) ls = Ok (h ++ [setLines ls x]).
Proof.
  unfold gast.SetLines. rewrite deref_snoc_at by done.
  cbn [bind]. by rewrite insert_snoc_new.
Qed.

Lemma AppendChild_new h l sn x :
  h !! l = Some sn -> parent x = None ->
  gast.AppendChild (h ++ [x]) l (length h) =
    Ok (<[l := setChildren (children sn ++ [length h]) sn]> h
        ++ [setParent (Some l) x]).
Proof.
  intros Hl Hp.
  assert (Hlt : (l < length h)%nat) by (eapply lookup_lt_Some; eauto).
  unfold gast.AppendChild, gast.ensureIsolated.
  rewrite deref_snoc_at by done. cbn [bind]. rewrite Hp. cbn [bind].
  rewrite (deref_Some _ l sn) by (by rewrite lookup_app_l).
  cbn [bind]. cbv zeta. rewrite insert_snoc_old by done.
  rewrite deref_snoc_at by (by rewrite length_insert). cbn [bind].
  by rewrite insert_snoc_at by (by rewrite length_insert).
Qed.

Lemma RemoveChild_Ok h q p pn qn :
  h !! p = Some pn -> parent pn = Some q -> h !! q = Some qn ->
  let qn' := setChildren (remove_id p (children qn)) qn in
  gast.RemoveChild h q p =
    Ok (<[p := setParent None (if decide (q = p) then qn' else pn)]>
          (<[q := qn']> h)).
Proof.
  intros Hp Hpar Hq qn'. unfold gast.RemoveChild.
  rewrite (deref_Some _ _ _ Hp). cbn [bind]. rewrite Hpar.
  rewrite decide_True by done.
  rewrite (deref_Some _ _ _ Hq). cbn [bind]. cbv zeta. fold qn'.
  assert (Hqlt : (q < length h)%nat) by (eapply lookup_lt_Some; eauto).
  case_decide as Hqp.
  - subst q. rewrite deref_Some with (x := qn'); [done|].
    by apply list_lookup_insert_eq.
  - rewrite deref_Some with (x := pn); [done|].
    by rewrite list_lookup_insert_ne.
Qed.

(** ** The list opener *)

Section ListOpener.

Context {R : Type} `{!text.Reader R} `{!util.Ops}.

(** Every match of [definitionListParser.Open], read backwards. *)
Lemma open_match_inv h parent reader pc l st h' r' :
  definitionListParser_Open h parent reader pc = Ok (Some l, st, h', r') ->
  let line := text.PeekLine reader in
  let pos := parser.BlockOffset pc in
  st = parser.HasChildren /\ r' = reader
  /\ index line pos = Ok colon /\ 1 <= widthAfterMarker line pos
  /\ exists last, gast.LastChild h parent = Ok last
      /\ (reusesListBeforeParagraph h last l (listOffset line pos) h'
          \/ createsList h last l (listOffset line pos) h'
          \/ reusesLastList h last l (listOffset line pos) h').
Proof.
  intros E line pos. unfold definitionListParser_Open in E.
  fold line pos in E.
  destruct (ast.asDefinitionList h (Some parent)); [discriminate|].
  apply bind_Ok in E as (c & Ec & E).
  destruct (Byte.eqb c colon) eqn:Ecol; simpl in E; [|discriminate].
  apply Byte.byte_dec_bl in Ecol. subst c.
  apply bind_Ok in E as (last & El & E).
  apply bind_Ok in E as (rest & Er & E).
  apply sliceFrom_Ok in Er. subst rest.
  change ((util.IndentWidth (drop (Z.to_nat (pos + 1)) line) (pos + 1)).1)
    with (widthAfterMarker line pos) in E.
  destruct (widthAfterMarker line pos <? 1) eqn:Ew; [discriminate|].
  replace ((if 8 <=? widthAfterMarker line pos then 5
            else widthAfterMarker line pos) + (pos + 1))
    with (listOffset line pos) in E by (unfold listOffset; lia).
  assert (Hw : 1 <= widthAfterMarker line pos) by lia.
  destruct (gast.isParagraph h last) eqn:Ep.
  - destruct (isParagraph_Some _ _ Ep) as [para ->].
    apply bind_Ok in E as (prev & Eprev & E).
    destruct (ast.asDefinitionList h prev) as [lst|] eqn:Eal.
    + apply bind_Ok in E as (h1 & E1 & E). apply bind_Ok in E as (h2 & E2 & E).
      injection E as -> <- <- <-.
      apply asDefinitionList_Some in Eal as [-> _].
      destruct (set_offset_then_paragraph _ _ _ _ _ _ E1 E2)
        as (x & off & tp & Hx & D & ->).
      do 4 (split; [done|]). exists (Some para). split; [done|]. left.
      exists para, x, off, tp. done.
    + simpl in E. injection E as <- <- <- <-.
      do 4 (split; [done|]). exists (Some para). split; [done|]. right. left.
      exists para, prev. done.
  - destruct (ast.asDefinitionList h last) as [lst|] eqn:Eal; [|discriminate].
    apply bind_Ok in E as (h1 & E1 & E). apply bind_Ok in E as (h2 & E2 & E).
    injection E as -> <- <- <-.
    apply asDefinitionList_Some in Eal as [-> _].
    destruct (set_offset_then_paragraph _ _ _ _ _ _ E1 E2)
      as (x & off & tp & Hx & D & ->).
    do 4 (split; [done|]). exists (Some l). split; [done|]. right. right.
    exists x, off, tp. done.
Qed.


(** C6.  When the marker at the block offset [pos] matches, the [Offset]
    of the list that [definitionListParser.Open] returns is [w + pos + 1],
    where [w] is the indentation width of the text after the marker, read
    from column [pos + 1], and where 5 stands for [w] whenever [8 <= w]. *)
Theorem definitionListParser_Open_offset h parent reader pc l st h' r' :
  definitionListParser_Open h parent reader pc = Ok (Some l, st, h', r') ->
  let line := text.PeekLine reader in
  let pos := parser.BlockOffset pc in
  let w := (util.IndentWidth (drop (Z.to_nat (pos + 1)) line) (pos + 1)).1 in
  index line pos = Ok colon /\ 1 <= w
  /\ ast.Offset h' (Some l) = Ok ((if 8 <=? w then 5 else w) + pos + 1).
Proof.
  intros E line pos w.
  apply open_match_inv in E as (_ & _ & Hc & Hw & last & _ & Hcase).
  do 2 (split; [done|]).
  change ((if 8 <=? w then 5 else w) + pos + 1) with (listOffset line pos).
  destruct Hcase as [(para & x & off & tp & _ & _ & _ & Hx & _ & ->)
                    |[(para & prev & _ & _ & _ & _ & -> & ->)
                     |(x & off & tp & _ & _ & Hx & _ & ->)]].
  - by apply Offset_insert.
  - apply Offset_alloc.
  - by apply Offset_insert.
Qed.

(** C7.  A call of [definitionListParser.Open] that returns has found no
    match exactly when the parent is a DefinitionList, or the character at
    the block offset is not the marker, or the indentation width after the
    marker is less than 1, or the last child of the parent is neither a
    paragraph nor a DefinitionList; it then answers [NoChildren] and leaves
    the arena and the reader as they were. *)
Theorem definitionListParser_Open_no_match h parent reader pc n st h' r' :
  definitionListParser_Open h parent reader pc = Ok (n, st, h', r') ->
  let line := text.PeekLine reader in
  let pos := parser.BlockOffset pc in
  (n = None <->
     isDefinitionList h parent \/ notMarker line pos
     \/ widthAfterMarker line pos < 1 \/ noTermContext h parent)
  /\ (n = None -> st = parser.NoChildren /\ h' = h /\ r' = reader).
Proof.
  intros E line pos. unfold definitionListParser_Open in E.
  fold line pos in E.
  destruct (ast.asDefinitionList h (Some parent)) as [pl|] eqn:Epl.
  { injection E as <- <- <- <-. split; [|done]. split; [|done].
    intros _. left. unfold isDefinitionList. rewrite Epl. eauto. }
  assert (Hnl : ~ isDefinitionList h parent).
  { unfold isDefinitionList. rewrite Epl. intros [? ?]. discriminate. }
  apply bind_Ok in E as (c & Ec & E).
  destruct (Byte.eqb c colon) eqn:Ecol; simpl in E.
  2:{ injection E as <- <- <- <-. split; [|done]. split; [|done].
      intros _. right. left. exists c. split; [done|]. by apply byte_eqb_false. }
  apply Byte.byte_dec_bl in Ecol. subst c.
  assert (Hm : ~ notMarker line pos).
  { intros (c & Ec' & Hc). congruence. }
  apply bind_Ok in E as (last & El & E).
  apply bind_Ok in E as (rest & Er & E).
  apply sliceFrom_Ok in Er. subst rest.
  change ((util.IndentWidth (drop (Z.to_nat (pos + 1)) line) (pos + 1)).1)
    with (widthAfterMarker line pos) in E.
  destruct (widthAfterMarker line pos <? 1) eqn:Ew.
  { injection E as <- <- <- <-. split; [|done]. split; [|done].
    intros _. right. right. left. lia. }
  assert (Hw : ~ widthAfterMarker line pos < 1) by lia.
  destruct (gast.isParagraph h last) eqn:Ep.
  - assert (Hc : ~ noTermContext h parent).
    { intros (l' & El' & Hp & _). congruence. }
    assert (n <> None).
    { apply bind_Ok in E as (prev & _ & E).
      destruct (ast.asDefinitionList h prev).
      - apply bind_Ok in E as (h1 & _ & E). apply bind_Ok in E as (h2 & _ & E).
        congruence.
      - simpl in E. congruence. }
    split; [|done]. split; [done|]. tauto.
  - destruct (ast.asDefinitionList h last) as [l|] eqn:Eal.
    + assert (Hc : ~ noTermContext h parent).
      { intros (l' & El' & _ & Hl'). congruence. }
      apply bind_Ok in E as (h1 & _ & E). apply bind_Ok in E as (h2 & _ & E).
      assert (n <> None) by congruence.
      split; [|done]. split; [done|]. tauto.
    + injection E as <- <- <- <-. split; [|done]. split; [|done].
      intros _. do 3 right. exists last. done.
Qed.

(** C3.  [definitionListParser.Continue] on a DefinitionList: a blank line
    continues the list with children; otherwise a line whose indentation
    width, read from the column of the cursor, is less than the [Offset] of
    the list closes it; otherwise the reader is advanced to the position
    and padding of the [Offset] column and the list continues with
    children. *)
Theorem definitionListParser_Continue_cases h node reader pc x off para :
  h !! node = Some x -> data x = DefinitionList off para ->
  let line := text.PeekLine reader in
  let col := text.LineOffset reader in
  let w := (util.IndentWidth line col).1 in
  let target := util.IndentPosition line col off in
  definitionListParser_Continue h node reader pc =
    if util.IsBlank line then
      Ok (Z.lor parser.Continue parser.HasChildren, reader)
    else if w <? off then Ok (parser.Close, reader)
    else Ok (Z.lor parser.Continue parser.HasChildren,
             text.AdvanceAndSetPadding reader target.1 target.2).
Proof.
  intros Hx D line col w target.
  unfold definitionListParser_Continue. fold line col.
  destruct (util.IsBlank line); [reflexivity|].
  rewrite (asDefinitionList_of_data _ _ _ _ _ Hx D).
  unfold ast.Offset. rewrite (deref_Some _ _ _ Hx). cbn [bind]. rewrite D.
  cbn [bind]. fold w.
  destruct (w <? off); [reflexivity|].
  subst target. by destruct (util.IndentPosition line col off).
Qed.

End ListOpener.

(** ** The description opener *)

Section DescriptionOpener.

Context {R : Type} `{!text.Reader R} `{!util.Ops}.

Lemma appendTerms_Ok (segs : list Segment) : forall (h : Heap) l src sn,
  h !! l = Some sn ->
  appendTerms h l src segs =
    Ok (<[l := setChildren (children sn ++ seq (length h) (length segs)) sn]> h
        ++ map (fun seg => termNode l (text.TrimRightSpace seg src)) segs).
Proof.
  induction segs as [|seg rest IH]; intros h l src sn Hl.
  - simpl. rewrite app_nil_r, app_nil_r.
    destruct sn. unfold setChildren; simpl. by rewrite list_insert_id.
  - assert (Hlt : (l < length h)%nat) by (eapply lookup_lt_Some; eauto).
    cbn [appendTerms ast.NewDefinitionTerm alloc].
    rewrite Lines_new. cbn [bind lines newNode app].
    rewrite SetLines_new. cbn [bind].
    rewrite (AppendChild_new _ _ _ _ Hl) by done. cbn [bind].
    erewrite IH.
    2:{ rewrite lookup_app_l by (by rewrite length_insert).
        by apply list_lookup_insert_eq. }
    f_equal. rewrite length_app, length_insert. simpl length.
    rewrite insert_app_l by (by rewrite length_insert).
    rewrite list_insert_insert_eq.
    rewrite <- app_assoc. simpl. f_equal. f_equal.
    unfold setChildren; simpl. f_equal.
    rewrite <- app_assoc. simpl. do 3 f_equal. lia.
Qed.


(** The description opener on a marker line, with a paragraph pending:
    the arena and the reader it leaves. *)
Lemma description_open_explicit h lst reader pc x off para px q qx :
  h !! lst = Some x -> data x = DefinitionList off (Some para) ->
  index (text.PeekLine reader) (parser.BlockOffset pc) = Ok colon ->
  h !! para = Some px -> data px = Paragraph ->
  parent px = Some q -> h !! q = Some qx ->
  let pos := parser.BlockOffset pc in
  let target :=
    util.IndentPosition (drop (Z.to_nat (pos + 1)) (text.PeekLine reader))
      (pos + 1) (off - pos - 1) in
  definitionDescriptionParser_Open h lst reader pc
  = Ok (Some (length h + length (lines px))%nat, parser.HasChildren,
        withTerms h lst para q x px qx off (text.Source reader)
          ++ [newNode (DefinitionDescription false)],
        text.AdvanceAndSetPadding reader target.1 target.2).
Proof.
  intros Hx D Hc Hp Dp Hpar Hq pos target.
  assert (Hlt : (lst < length h)%nat) by (eapply lookup_lt_Some; eauto).
  assert (Eas : ast.asDefinitionList h (Some lst) = Some lst)
    by (eapply asDefinitionList_of_data; eauto).
  unfold definitionDescriptionParser_Open. rewrite Hc. cbn [bind].
  replace (Byte.eqb colon colon) with true by done. cbn [negb].
  rewrite Eas. unfold ast.TemporaryParagraph, ast.SetTemporaryParagraph.
  rewrite (deref_Some _ _ _ Hx). cbn [bind]. rewrite D. cbn [bind].
  rewrite (sliceFrom_after_index _ _ _ Hc).
  set (x1 := setData (DefinitionList off None) x).
  assert (Hne : para <> lst) by (intros ->; congruence).
  assert (Hplt : (para < length h)%nat) by (eapply lookup_lt_Some; eauto).
  assert (Hqlt : (q < length h)%nat) by (eapply lookup_lt_Some; eauto).
  unfold gast.Lines.
  rewrite deref_Some with (x := px) by (by rewrite list_lookup_insert_ne).
  cbn [bind].
  rewrite appendTerms_Ok with (sn := x1) by (by apply list_lookup_insert_eq).
  cbn [bind]. rewrite list_insert_insert_eq, length_insert.
  set (n := length (lines px)). set (terms := seq (length h) n).
  set (x2 := setChildren (children x1 ++ terms) x1).
  set (tn := map _ (lines px)).
  match goal with |- context [gast.Parent ?t para] => set (hT := t) end.
  assert (HTp : hT !! para = Some px).
  { subst hT. rewrite lookup_app_l by (by rewrite length_insert).
    by rewrite list_lookup_insert_ne. }
  set (qn := if decide (q = lst) then x2 else qx).
  assert (HTq : hT !! q = Some qn).
  { subst hT qn. rewrite lookup_app_l by (by rewrite length_insert).
    case_decide; [subst; by apply list_lookup_insert_eq|].
    by rewrite list_lookup_insert_ne. }
  unfold gast.Parent. rewrite (deref_Some _ _ _ HTp). cbn [bind]. rewrite Hpar.
  rewrite (RemoveChild_Ok _ _ _ _ _ HTp Hpar HTq). cbn [bind].
  set (qn' := setChildren (remove_id para (children qn)) qn).
  set (pn' := setParent None (if decide (q = para) then qn' else px)).
  set (hR := <[para := pn']> (<[q := qn']> hT)).
  assert (LR : length hR = (length h + n)%nat).
  { subst hR hT tn. by rewrite !length_insert, length_app, length_insert, length_map. }
  assert (HRl : hR !! lst = Some (if decide (q = lst) then qn' else x2)).
  { subst hR. rewrite list_lookup_insert_ne by done.
    case_decide.
    - subst q. apply list_lookup_insert_eq. subst hT.
      rewrite length_app, length_insert. lia.
    - rewrite list_lookup_insert_ne by done. subst hT.
      rewrite lookup_app_l by (by rewrite length_insert).
      by apply list_lookup_insert_eq. }
  assert (Dl : data (if decide (q = lst) then qn' else x2)
               = DefinitionList off None).
  { subst qn' qn. by case_decide. }
  unfold ast.Offset. rewrite (deref_Some _ _ _ HRl). cbn [bind]. rewrite Dl.
  cbn [bind]. fold pos. fold target.
  destruct target as [cpos padding].
  unfold ast.NewDefinitionDescription, alloc. rewrite LR. reflexivity.
Qed.

Lemma withTerms_lookups h lst para q x px qx off src :
  h !! lst = Some x -> data x = DefinitionList off (Some para) ->
  h !! para = Some px -> data px = Paragraph ->
  parent px = Some q -> h !! q = Some qx ->
  let n := length (lines px) in
  let terms := seq (length h) n in
  let h' := withTerms h lst para q x px qx off src in
  length h' = (length h + n)%nat
  /\ termsAdded h h' lst src (lines px)
  /\ (exists y, h' !! lst = Some y /\ data y = DefinitionList off None
        /\ children y = if decide (q = lst)
                        then remove_id para (children x ++ terms)
                        else children x ++ terms)
  /\ (exists py, h' !! para = Some py /\ parent py = None
        /\ data py = Paragraph /\ lines py = lines px)
  /\ (exists qy, h' !! q = Some qy /\ para ∉ children qy)
  /\ (forall j, (j < length h)%nat -> j <> lst -> j <> para -> j <> q ->
        h' !! j = h !! j).
Proof.
  intros Hx D Hp Dp Hpar Hq n terms.
  assert (Hlt : (lst < length h)%nat) by (eapply lookup_lt_Some; eauto).
  assert (Hne : para <> lst) by (intros ->; congruence).
  assert (Hplt : (para < length h)%nat) by (eapply lookup_lt_Some; eauto).
  assert (Hqlt : (q < length h)%nat) by (eapply lookup_lt_Some; eauto).
  unfold withTerms. fold n. fold terms.
  set (x1 := setData (DefinitionList off None) x).
  set (x2 := setChildren (children x1 ++ terms) x1).
  set (tn := map _ (lines px)).
  set (hT := <[lst := x2]> h ++ tn).
  set (qn := if decide (q = lst) then x2 else qx).
  set (qn' := setChildren (remove_id para (children qn)) qn).
  set (pn' := setParent None (if decide (q = para) then qn' else px)).
  set (hR := <[para := pn']> (<[q := qn']> hT)).
  assert (LT : length hT = (length h + n)%nat).
  { subst hT tn. by rewrite length_app, length_insert, length_map. }
  assert (LR : length hR = (length h + n)%nat).
  { subst hR. by rewrite !length_insert. }
  assert (HRp : hR !! para = Some pn').
  { subst hR. apply list_lookup_insert_eq. rewrite length_insert. lia. }
  assert (HRq : q <> para -> hR !! q = Some qn').
  { intros. subst hR. rewrite list_lookup_insert_ne by done.
    apply list_lookup_insert_eq. lia. }
  assert (HRl : hR !! lst = Some (if decide (q = lst) then qn' else x2)).
  { subst hR. rewrite list_lookup_insert_ne by done.
    case_decide; [subst q; apply list_lookup_insert_eq; lia|].
    rewrite list_lookup_insert_ne by done. subst hT.
    rewrite lookup_app_l by (by rewrite length_insert).
    by apply list_lookup_insert_eq. }
  split; [exact LR|].
  split.
  { intros i seg Hi.
    assert (i < n)%nat by (eapply lookup_lt_Some; eauto).
    subst hR. rewrite !list_lookup_insert_ne by lia.
    subst hT. rewrite lookup_app_r by (rewrite length_insert; lia).
    rewrite length_insert.
    replace (length h + i - length h)%nat with i by lia.
    subst tn. rewrite list_lookup_fmap, Hi. done. }
  split.
  { eexists. split; [exact HRl|].
    split; [subst qn' qn; by case_decide|]. subst qn' qn. by case_decide. }
  split.
  { exists pn'. split; [done|].
    subst pn' qn' qn. split; [done|].
    destruct (decide (q = para)) as [->|Hqp]; [|by simpl].
    assert (qx = px) as -> by congruence.
    rewrite decide_False by done. by simpl. }
  split.
  { destruct (decide (q = para)) as [->|Hqp].
    - exists pn'. split; [done|].
      subst pn'. simpl. apply remove_id_not_in.
    - exists qn'. split; [by apply HRq|].
      simpl. apply remove_id_not_in. }
  intros j Hj N1 N2 N3.
  subst hR. rewrite !list_lookup_insert_ne by done.
  subst hT. rewrite lookup_app_l by (by rewrite length_insert).
  by rewrite list_lookup_insert_ne.
Qed.

(** The whole effect of [definitionDescriptionParser.Open] on a marker
    line, with and without a pending paragraph. *)
Lemma description_open_run h lst reader pc x off tp :
  h !! lst = Some x -> data x = DefinitionList off tp ->
  index (text.PeekLine reader) (parser.BlockOffset pc) = Ok colon ->
  match tp with
  | Some para =>
      forall px q qx,
      h !! para = Some px -> data px = Paragraph ->
      parent px = Some q -> h !! q = Some qx ->
      let n := length (lines px) in
      let terms := seq (length h) n in
      exists h' r',
        definitionDescriptionParser_Open h lst reader pc
          = Ok (Some (length h + n)%nat, parser.HasChildren, h', r')
        /\ termsAdded h h' lst (text.Source reader) (lines px)
        /\ (exists y, h' !! lst = Some y /\ data y = DefinitionList off None
              /\ children y = if decide (q = lst)
                              then remove_id para (children x ++ terms)
                              else children x ++ terms)
        /\ (exists py, h' !! para = Some py /\ parent py = None
              /\ data py = Paragraph /\ lines py = lines px)
        /\ (exists qy, h' !! q = Some qy /\ para ∉ children qy)
        /\ (forall j, (j < length h)%nat -> j <> lst -> j <> para -> j <> q ->
              h' !! j = h !! j)
        /\ h' !! (length h + n)%nat = Some (newNode (DefinitionDescription false))
        /\ length h' = S (length h + n)
  | None =>
      exists r',
        definitionDescriptionParser_Open h lst reader pc
          = Ok (Some (length h), parser.HasChildren,
                h ++ [newNode (DefinitionDescription false)], r')
  end.
Proof.
  intros Hx D Hc. destruct tp as [para|].
  - intros px q qx Hp Dp Hpar Hq n terms.
    rewrite (description_open_explicit _ _ _ _ _ _ _ _ _ _ Hx D Hc Hp Dp Hpar Hq).
    destruct (withTerms_lookups _ _ _ _ _ _ _ _ (text.Source reader)
                Hx D Hp Dp Hpar Hq)
      as (LR & Hterms & (y & Hy & Hyd) & (py & Hpy & Hpyd) & (qy & Hqy & Hqyd) & Hframe).
    fold n in LR. set (h' := withTerms _ _ _ _ _ _ _ _ _) in *.
    eexists _, _. split; [reflexivity|].
    split.
    { intros i seg Hi.
      assert (i < n)%nat by (eapply lookup_lt_Some; eauto).
      rewrite lookup_app_l by lia. by apply Hterms. }
    split.
    { exists y. rewrite lookup_app_l; [done| eapply lookup_lt_Some; eauto]. }
    split.
    { exists py. rewrite lookup_app_l; [done| eapply lookup_lt_Some; eauto]. }
    split.
    { exists qy. rewrite lookup_app_l; [done| eapply lookup_lt_Some; eauto]. }
    split.
    { intros j Hj N1 N2 N3. rewrite lookup_app_l by lia. by apply Hframe. }
    split.
    { rewrite <- LR. apply lookup_snoc_new. }
    rewrite length_app, LR. simpl. lia.
  - assert (Hlt : (lst < length h)%nat) by (eapply lookup_lt_Some; eauto).
    unfold definitionDescriptionParser_Open. rewrite Hc. cbn [bind].
    replace (Byte.eqb colon colon) with true by done. cbn [negb].
    rewrite (asDefinitionList_of_data _ _ _ _ _ Hx D).
    unfold ast.TemporaryParagraph, ast.SetTemporaryParagraph.
    rewrite (deref_Some _ _ _ Hx). cbn [bind]. rewrite D. cbn [bind].
    rewrite (sliceFrom_after_index _ _ _ Hc).
    assert (Eid : <[lst := setData (DefinitionList off None) x]> h = h).
    { assert (setData (DefinitionList off None) x = x) as ->
        by (destruct x; simpl in *; by subst).
      by apply list_insert_id. }
    rewrite Eid. cbn [bind].
    unfold ast.Offset. rewrite (deref_Some _ _ _ Hx). cbn [bind].
    rewrite D. cbn [bind].
    destruct (util.IndentPosition _ _ _) as [cpos padding].
    eexists. reflexivity.
Qed.


End DescriptionOpener.

(** ** Closing a description *)

Lemma deref_app_old (h t : Heap) g gx :
  h !! g = Some gx -> deref (h ++ t) g = Ok gx.
Proof.
  intros Hg. apply deref_Some. rewrite lookup_app_l; [done|].
  eapply lookup_lt_Some; eauto.
Qed.

Lemma attached_spec h n :
  attached h n = true ->
  exists x, h !! n = Some x /\ NoDup (children x)
    /\ forall c, c ∈ children x ->
         exists cx, h !! c = Some cx /\ parent cx = Some n.
Proof.
  unfold attached. destruct (h !! n) as [x|]; [|discriminate].
  intros [ND All]%andb_prop. exists x. split; [done|].
  split; [by apply bool_decide_eq_true in ND|].
  intros c Hc. rewrite forallb_forall in All.
  specialize (All c). rewrite <- list_elem_of_In in All. specialize (All Hc).
  destruct (h !! c) as [cx|]; [|discriminate].
  exists cx. split; [done|]. by apply bool_decide_eq_true in All.
Qed.

Lemma isParagraph_true h g :
  gast.isParagraph h (Some g) = true ->
  exists gx, h !! g = Some gx /\ data gx = Paragraph.
Proof.
  unfold gast.isParagraph. destruct (h !! g) as [gx|]; [|discriminate].
  intros E%bool_decide_eq_true. eauto.
Qed.

Lemma replaceByTextBlock_Ok h desc g x gx :
  h !! desc = Some x -> h !! g = Some gx -> parent gx = Some desc ->
  g <> desc ->
  replaceByTextBlock h desc g =
    Ok (<[g := setParent None gx]>
          (<[desc := setChildren
                       (remove_id g (insert_before g (length h) (children x))) x]> h)
        ++ [textBlockNode desc (lines gx)]).
Proof.
  intros Hd Hg Hpar Hne.
  assert (Hdlt : (desc < length h)%nat) by (eapply lookup_lt_Some; eauto).
  assert (Hglt : (g < length h)%nat) by (eapply lookup_lt_Some; eauto).
  unfold replaceByTextBlock, gast.NewTextBlock, alloc.
  unfold gast.Lines. rewrite (deref_app_old _ _ _ _ Hg). cbn [bind].
  rewrite SetLines_new. cbn [bind].
  unfold gast.ReplaceChild, gast.InsertBefore, gast.ensureIsolated.
  rewrite deref_snoc_at by done. cbn [bind parent setLines newNode].
  rewrite (deref_app_old _ _ _ _ Hg). cbn [bind]. rewrite Hpar.
  rewrite decide_True by done.
  rewrite (deref_app_old _ _ _ _ Hd). cbn [bind]. cbv zeta.
  rewrite insert_snoc_old by done.
  rewrite deref_snoc_at by (by rewrite length_insert). cbn [bind].
  rewrite insert_snoc_at by (by rewrite length_insert).
  set (x1 := setChildren (insert_before g (length h) (children x)) x).
  erewrite RemoveChild_Ok with (pn := gx) (qn := x1); [|
    rewrite lookup_app_l by (by rewrite length_insert);
    by rewrite list_lookup_insert_ne | done |
    rewrite lookup_app_l by (by rewrite length_insert);
    by apply list_lookup_insert_eq ].
  rewrite decide_False by done. f_equal.
  rewrite insert_app_l by (by rewrite length_insert).
  rewrite list_insert_insert_eq.
  rewrite insert_app_l by (by rewrite length_insert).
  done.
Qed.

(** Once replaced, the paragraph has no parent, hence no next sibling. *)
Lemma NextSibling_replaced h desc g x gx h1 :
  h !! desc = Some x -> h !! g = Some gx -> parent gx = Some desc ->
  g <> desc ->
  replaceByTextBlock h desc g = Ok h1 -> gast.NextSibling h1 g = Ok None.
Proof.
  intros Hd Hg Hpar Hne E.
  rewrite (replaceByTextBlock_Ok _ _ _ _ _ Hd Hg Hpar Hne) in E.
  injection E as <-. unfold gast.NextSibling.
  assert (Hglt : (g < length h)%nat) by (eapply lookup_lt_Some; eauto).
  rewrite deref_app_old with (gx := setParent None gx); [done|].
  apply list_lookup_insert_eq. by rewrite length_insert.
Qed.

(** The loop stops at the first paragraph: it replaces that one by a text
    block and reads nil as its next sibling. *)
Lemma closeLoop_first_paragraph h desc x :
  h !! desc = Some x -> attached h desc = true ->
  data x <> Paragraph ->
  forall rest pre fuel,
    children x = pre ++ rest -> (length rest < fuel)%nat ->
    closeLoop fuel h desc (head rest) =
      match firstParagraph h rest with
      | Some g => replaceByTextBlock h desc g
      | None => Ok h
      end.
Proof.
  intros Hd Hatt Hkind.
  destruct (attached_spec _ _ Hatt) as (x' & Hx' & ND & Hch).
  assert (x' = x) as -> by congruence.
  induction rest as [|g rest IH]; intros pre fuel Hsplit Hfuel.
  - destruct fuel; reflexivity.
  - destruct fuel as [|fuel]; [simpl in Hfuel; lia|].
    destruct (Hch g) as (gx & Hg & Hpar).
    { rewrite Hsplit, elem_of_app, elem_of_cons. tauto. }
    cbn [head closeLoop firstParagraph find].
    destruct (gast.isParagraph h (Some g)) eqn:Ep.
    + assert (Hne : g <> desc).
      { destruct (isParagraph_true _ _ Ep) as (gx' & Hg' & Dg).
        intros ->. congruence. }
      destruct (replaceByTextBlock h desc g) as [h1| |] eqn:Erep; try reflexivity.
      cbn [bind].
      rewrite (NextSibling_replaced _ _ _ _ _ _ Hd Hg Hpar Hne Erep).
      cbn [bind]. by destruct fuel.
    + cbn [bind]. unfold gast.NextSibling.
      rewrite (deref_Some _ _ _ Hg). cbn [bind]. rewrite Hpar.
      rewrite (deref_Some _ _ _ Hd). cbn [bind].
      rewrite Hsplit in ND |- *. rewrite (next_in_middle _ _ _ ND).
      apply (IH (pre ++ [g]) fuel).
      * by rewrite <- app_assoc.
      * simpl in Hfuel. lia.
Qed.

Lemma isParagraph_setData h n x d c :
  h !! n = Some x -> data x <> Paragraph -> d <> Paragraph ->
  gast.isParagraph (<[n := setData d x]> h) c = gast.isParagraph h c.
Proof.
  intros Hx Dx Dd. destruct c as [c|]; [|done]. unfold gast.isParagraph.
  assert (n < length h)%nat by (eapply lookup_lt_Some; eauto).
  destruct (decide (n = c)) as [E|Hne]; [subst c|].
  - rewrite list_lookup_insert_eq by done. rewrite Hx. simpl.
    rewrite !bool_decide_eq_false_2; done.
  - by rewrite list_lookup_insert_ne.
Qed.

Lemma firstParagraph_setData h n x d l :
  h !! n = Some x -> data x <> Paragraph -> d <> Paragraph ->
  firstParagraph (<[n := setData d x]> h) l = firstParagraph h l.
Proof.
  intros Hx Dx Dd. unfold firstParagraph.
  induction l as [|c l IH]; [done|]. cbn [find].
  rewrite (isParagraph_setData _ _ _ _ _ Hx Dx Dd). by rewrite IH.
Qed.

Lemma attached_setData h n x d :
  h !! n = Some x -> attached h n = true ->
  attached (<[n := setData d x]> h) n = true.
Proof.
  intros Hx. unfold attached. rewrite Hx.
  assert (n < length h)%nat by (eapply lookup_lt_Some; eauto).
  rewrite list_lookup_insert_eq by done. simpl.
  intros [ND All]%andb_prop. rewrite ND. simpl.
  rewrite forallb_forall in All |- *. intros c Hc. specialize (All c Hc).
  destruct (decide (n = c)) as [E|Hne]; [subst c|].
  - rewrite list_lookup_insert_eq by done. by rewrite Hx in All.
  - by rewrite list_lookup_insert_ne.
Qed.

Lemma firstParagraph_Some h l g :
  firstParagraph h l = Some g -> g ∈ l /\ gast.isParagraph h (Some g) = true.
Proof.
  unfold firstParagraph. intros [I P]%find_some.
  split; [by apply list_elem_of_In | done].
Qed.

Section DescriptionCloser.

Context {R : Type} `{!text.Reader R} `{!util.Ops}.

(** What [definitionDescriptionParser.Close] does to a description whose
    children are attached to it: it sets [IsTight], and when the
    description is tight and has a paragraph among its children, it
    replaces the first of them by a text block. *)
Lemma Close_run h node (reader : R) pc x t :
  h !! node = Some x -> data x = DefinitionDescription t ->
  attached h node = true ->
  let tight := negb (blankPreviousLines x) in
  let h1 := <[node := setData (DefinitionDescription tight) x]> h in
  definitionDescriptionParser_Close h node reader pc =
    if tight then
      match firstParagraph h (children x) with
      | Some g => replaceByTextBlock h1 node g
      | None => Ok h1
      end
    else Ok h1.
Proof.
  intros Hx D Hatt tight h1.
  assert (Hlt : (node < length h)%nat) by (eapply lookup_lt_Some; eauto).
  unfold definitionDescriptionParser_Close, ast.toDefinitionDescription.
  rewrite (deref_Some _ _ _ Hx). cbn [bind]. rewrite D. cbn [bind].
  unfold gast.HasBlankPreviousLines. rewrite (deref_Some _ _ _ Hx). cbn [bind].
  unfold ast.SetIsTight. rewrite (deref_Some _ _ _ Hx). cbn [bind]. rewrite D.
  cbn [bind]. fold tight. fold h1.
  assert (H1 : h1 !! node = Some (setData (DefinitionDescription tight) x)).
  { subst h1. by apply list_lookup_insert_eq. }
  unfold ast.IsTight. rewrite (deref_Some _ _ _ H1). cbn [bind data setData].
  destruct tight; [|reflexivity].
  unfold gast.FirstChild. rewrite (deref_Some _ _ _ H1).
  cbn [bind children setData].
  rewrite (closeLoop_first_paragraph h1 node _ H1) with (pre := []);
    [| by apply attached_setData | done | done | simpl; lia ].
  subst h1. rewrite firstParagraph_setData; [done|done| |done].
  rewrite D. done.
Qed.

Lemma firstParagraph_app h pre g rest :
  firstParagraph h pre = None -> gast.isParagraph h (Some g) = true ->
  firstParagraph h (pre ++ g :: rest) = Some g.
Proof.
  unfold firstParagraph. induction pre as [|c pre IH]; cbn [find app].
  - intros _ ->. done.
  - destruct (gast.isParagraph h (Some c)); [discriminate|]. exact IH.
Qed.

(** The tightness flag after [Close] is the negation of the blank-line
    flag of the description, and a loose description keeps everything else
    as it was. *)
Theorem Close_sets_tightness h node (reader : R) pc x t :
  h !! node = Some x -> data x = DefinitionDescription t ->
  attached h node = true ->
  exists h',
    definitionDescriptionParser_Close h node reader pc = Ok h'
    /\ ast.IsTight h' node = Ok (negb (blankPreviousLines x))
    /\ (blankPreviousLines x = true ->
        h' = <[node := setData (DefinitionDescription false) x]> h).
Proof.
  intros Hx D Hatt.
  assert (Hlt : (node < length h)%nat) by (eapply lookup_lt_Some; eauto).
  rewrite (Close_run _ _ _ _ _ _ Hx D Hatt).
  set (x1 := setData (DefinitionDescription (negb (blankPreviousLines x))) x).
  assert (H1 : <[node := x1]> h !! node = Some x1)
    by (by apply list_lookup_insert_eq).
  assert (T1 : ast.IsTight (<[node := x1]> h) node
               = Ok (negb (blankPreviousLines x))).
  { unfold ast.IsTight. by rewrite (deref_Some _ _ _ H1). }
  destruct (blankPreviousLines x) eqn:Eb; cbn [negb] in *.
  { eexists. split; [reflexivity|]. split; [exact T1|done]. }
  destruct (firstParagraph h (children x)) as [g|] eqn:Ef.
  2:{ eexists. split; [reflexivity|]. split; [exact T1|discriminate]. }
  apply firstParagraph_Some in Ef as [Hin Hpar].
  destruct (attached_spec _ _ Hatt) as (x' & Hx' & _ & Hch).
  assert (x' = x) as -> by congruence.
  destruct (Hch g Hin) as (gx & Hg & Hgp).
  destruct (isParagraph_true _ _ Hpar) as (gx' & Hg' & Dg).
  assert (gx' = gx) as -> by congruence.
  assert (Hne : g <> node) by (intros ->; congruence).
  assert (Hglt : (g < length h)%nat) by (eapply lookup_lt_Some; eauto).
  erewrite (replaceByTextBlock_Ok _ node g x1 gx);
    [ | exact H1 | by rewrite list_lookup_insert_ne | done | done ].
  eexists. split; [reflexivity|]. split; [|discriminate].
  unfold ast.IsTight.
  erewrite deref_app_old with
    (gx := setChildren
             (remove_id g
                (insert_before g (length (<[node := x1]> h)) (children x1)))
             x1);
    [reflexivity|].
  rewrite list_lookup_insert_ne by done.
  apply list_lookup_insert_eq. by rewrite length_insert.
Qed.

(** On a tight description whose children are attached to it, [Close]
    replaces the first paragraph among the children by a text block with
    the lines of that paragraph, and nothing after it: the children that
    follow, paragraphs too, stay as they are. *)
Theorem Close_replaces_first_paragraph h node (reader : R) pc x t pre g gx rest :
  h !! node = Some x -> data x = DefinitionDescription t ->
  attached h node = true -> blankPreviousLines x = false ->
  children x = pre ++ g :: rest -> firstParagraph h pre = None ->
  gast.isParagraph h (Some g) = true -> h !! g = Some gx ->
  exists h',
    definitionDescriptionParser_Close h node reader pc = Ok h'
    /\ h' = <[g := setParent None gx]>
              (<[node := mkNode (DefinitionDescription true) (parent x)
                           (pre ++ length h :: rest) (lines x) false]> h)
            ++ [textBlockNode node (lines gx)]
    /\ forall c, c ∈ rest -> c <> node -> h' !! c = h !! c.
Proof.
  intros Hx D Hatt Eb Hsplit Hpre Hpar Hg.
  assert (Hlt : (node < length h)%nat) by (eapply lookup_lt_Some; eauto).
  assert (Hglt : (g < length h)%nat) by (eapply lookup_lt_Some; eauto).
  destruct (attached_spec _ _ Hatt) as (x' & Hx' & ND & Hch).
  assert (x' = x) as -> by congruence.
  destruct (Hch g) as (gx' & Hg' & Hgp).
  { rewrite Hsplit, elem_of_app, elem_of_cons. tauto. }
  assert (gx' = gx) as -> by congruence.
  destruct (isParagraph_true _ _ Hpar) as (gx' & Hg'' & Dg).
  assert (gx' = gx) as -> by congruence.
  assert (Hne : g <> node) by (intros ->; congruence).
  rewrite (Close_run _ _ _ _ _ _ Hx D Hatt). rewrite Eb. cbn [negb].
  rewrite Hsplit, (firstParagraph_app _ _ _ _ Hpre Hpar).
  erewrite (replaceByTextBlock_Ok _ node g _ gx);
    [ | by apply list_lookup_insert_eq | by rewrite list_lookup_insert_ne
      | done | done ].
  rewrite length_insert, list_insert_insert_eq. cbn [children setData].
  rewrite Hsplit, replace_in_middle; [ | by rewrite <- Hsplit | ].
  2:{ intros I. rewrite <- Hsplit in I. destruct (Hch _ I) as (cx & Hc & _).
      apply lookup_lt_Some in Hc. lia. }
  eexists. split; [reflexivity|]. split.
  { do 3 f_equal. unfold setChildren, setData. cbn. by rewrite Eb. }
  intros c Hc Hcn.
  assert (Hcin : c ∈ children x).
  { rewrite Hsplit, elem_of_app, elem_of_cons. tauto. }
  destruct (Hch c Hcin) as (cx & Hcx & Hcp).
  assert (c <> g).
  { intros ->. rewrite Hsplit in ND. apply NoDup_app in ND as (_ & _ & ND).
    apply NoDup_cons in ND as [N _]. done. }
  rewrite lookup_app_l by (rewrite !length_insert; eapply lookup_lt_Some; eauto).
  by rewrite !list_lookup_insert_ne.
Qed.

End DescriptionCloser.

(** ** The renderer *)

Lemma append_assoc (a b c : string) : (a +:+ b) +:+ c = a +:+ b +:+ c.
Proof.
  induction a as [|ch a IH]; [done|].
  change (String ch ((a +:+ b) +:+ c) = String ch (a +:+ b +:+ c)).
  by rewrite IH.
Qed.

Lemma append_nil_r (a : string) : a +:+ "" = a.
Proof.
  induction a as [|ch a IH]; [done|].
  change (String ch (a +:+ "") = String ch a). by rewrite IH.
Qed.

Section RendererProperties.

Context {C : Type}.

Lemma registered_kind (r : DefinitionListHTMLRenderer C) k :
  RegisterFuncs r noFuncs k =
    match k with
    | ast.KindDefinitionList => Some (renderDefinitionList r)
    | ast.KindDefinitionTerm => Some (renderDefinitionTerm r)
    | ast.KindDefinitionDescription => Some (renderDefinitionDescription r)
    | _ => None
    end.
Proof. by destruct k. Qed.

Lemma renderDefinitionDescription_Ok (r : DefinitionListHTMLRenderer C)
    w source h node x tight entering :
  h !! node = Some x -> data x = DefinitionDescription tight ->
  renderDefinitionDescription r w source h node entering
  = Ok (w +:+ descriptionTag tight entering, gast.WalkContinue, None).
Proof.
  intros Hx D.
  unfold renderDefinitionDescription, descriptionTag, WriteString.
  destruct entering; [|reflexivity].
  unfold ast.toDefinitionDescription, ast.IsTight.
  rewrite (deref_Some _ _ _ Hx). cbn [bind]. rewrite D. cbn [bind].
  rewrite (deref_Some _ _ _ Hx). cbn [bind]. rewrite D. cbn [bind].
  by destruct tight.
Qed.

(** C8.  Each render function appends its tag to the writer and nothing
    else, and returns [WalkContinue] and a nil error: the list writes its
    opening tag and a line feed on entering and its closing tag and a line
    feed on exiting; the term its opening tag on entering and its closing
    tag and a line feed on exiting; the description its opening tag on
    entering, followed by a line feed unless [IsTight], and its closing tag
    and a line feed on exiting.  Only the description function reads its
    node, and only on entering: there the node is a DefinitionDescription,
    the kind the function is registered under. *)
Theorem render_functions_output (r : DefinitionListHTMLRenderer C)
    (w : BufWriter) (source : list byte) (h : Heap) (node : NodeId)
    (x : Node) (tight entering : bool) :
  h !! node = Some x -> data x = DefinitionDescription tight ->
  (forall n, renderDefinitionList r w source h n entering
             = Ok (w +:+ listTag entering, gast.WalkContinue, None))
  /\ (forall n, renderDefinitionTerm r w source h n entering
                = Ok (w +:+ termTag entering, gast.WalkContinue, None))
  /\ renderDefinitionDescription r w source h node entering
     = Ok (w +:+ descriptionTag tight entering, gast.WalkContinue, None)
  /\ (forall n, renderDefinitionDescription r w source h n false
                = Ok (w +:+ "</dd>" +:+ nl, gast.WalkContinue, None)).
Proof.
  intros Hx D. split; [|split; [|split]].
  - intros n. unfold renderDefinitionList, listTag, WriteString.
    by destruct entering.
  - intros n. unfold renderDefinitionTerm, termTag, WriteString.
    by destruct entering.
  - by apply (renderDefinitionDescription_Ok r w source h node x).
  - intros n. reflexivity.
Qed.

Lemma renderNode_registered (r : DefinitionListHTMLRenderer C) w source h n x
    entering :
  h !! n = Some x ->
  renderNode (RegisterFuncs r noFuncs) w source h n entering
  = Ok (w +:+ visitTag (data x) entering, gast.WalkContinue, None).
Proof.
  intros Hx. unfold renderNode. rewrite (deref_Some _ _ _ Hx). cbn [bind].
  rewrite registered_kind.
  destruct (data x) eqn:D; cbn [ast.Kind visitTag];
    try (by rewrite append_nil_r).
  - unfold renderDefinitionList, listTag, WriteString. by destruct entering.
  - unfold renderDefinitionTerm, termTag, WriteString. by destruct entering.
  - by apply (renderDefinitionDescription_Ok r w source h n x).
Qed.

Lemma renderNode_Ok (r : DefinitionListHTMLRenderer C) w source h n entering res :
  renderNode (RegisterFuncs r noFuncs) w source h n entering = Ok res ->
  exists x, h !! n = Some x.
Proof.
  unfold renderNode. intros E. apply bind_Ok in E as (x & Ex & _).
  apply deref_Ok in Ex. eauto.
Qed.

(** C10.  A pass of the registered render functions over the visits of a
    tree appends to the writer a sequence of bytes that does not depend on
    what the writer held, on the source or on the renderer value: a second
    pass over the same visits of the same tree, whatever it starts from,
    writes the same bytes. *)
Theorem render_pass_repeatable (r r' : DefinitionListHTMLRenderer C)
    (w w' : BufWriter) (source source' : list byte) (h : Heap)
    (visits : list (NodeId * bool)) (out : BufWriter) :
  renderPass (RegisterFuncs r noFuncs) w source h visits = Ok out ->
  exists written,
    out = w +:+ written
    /\ renderPass (RegisterFuncs r' noFuncs) w' source' h visits
       = Ok (w' +:+ written).
Proof.
  revert w w' out.
  induction visits as [|[n entering] rest IH]; intros w w' out E.
  - injection E as <-. exists "". by rewrite !append_nil_r.
  - cbn [renderPass] in E |- *.
    apply bind_Ok in E as (res & Eres & E).
    destruct (renderNode_Ok _ _ _ _ _ _ _ Eres) as [x Hx].
    rewrite (renderNode_registered r _ _ _ _ _ _ Hx) in Eres.
    injection Eres as <-. cbn [fst] in E.
    destruct (IH _ (w' +:+ visitTag (data x) entering) _ E) as (tl & -> & E').
    exists (visitTag (data x) entering +:+ tl). split.
    + apply append_assoc.
    + rewrite (renderNode_registered r' _ _ _ _ _ _ Hx). cbn [bind fst].
      rewrite E'. by rewrite append_assoc.
Qed.

End RendererProperties.

(** ** Panics *)

Lemma pendingAttached_Some h p :
  pendingAttached h (Some p) = true ->
  exists px q qx, h !! p = Some px /\ data px = Paragraph
    /\ parent px = Some q /\ h !! q = Some qx.
Proof.
  unfold pendingAttached. destruct (h !! p) as [px|]; [|discriminate].
  intros [D Q]%andb_prop. apply bool_decide_eq_true in D.
  destruct (parent px) as [q|] eqn:Epar; [|discriminate].
  apply bool_decide_eq_true in Q as [qx Hq]. eauto 10.
Qed.

Section Panics.

Context {R : Type} `{!text.Reader R} `{!util.Ops}.

Lemma Continue_on_list h node (reader : R) pc :
  isDefinitionList h node ->
  exists res, definitionListParser_Continue h node reader pc = Ok res.
Proof.
  intros [l Hl]. unfold definitionListParser_Continue.
  destruct (util.IsBlank _); [eauto|]. rewrite Hl.
  apply asDefinitionList_Some in Hl as [[= <-] (x & off & para & Hx & D)].
  unfold ast.Offset. rewrite (deref_Some _ _ _ Hx). cbn [bind]. rewrite D.
  cbn [bind]. destruct (_ <? off); [eauto|].
  destruct (util.IndentPosition _ _ _). eauto.
Qed.

Lemma Continue_off_list h node (reader : R) pc :
  ~ isDefinitionList h node ->
  definitionListParser_Continue h node reader pc =
    if util.IsBlank (text.PeekLine reader)
    then Ok (Z.lor parser.Continue parser.HasChildren, reader)
    else Panic.
Proof.
  intros N. unfold definitionListParser_Continue.
  destruct (util.IsBlank _); [done|].
  destruct (ast.asDefinitionList h (Some node)) eqn:E; [|done].
  destruct N. unfold isDefinitionList. rewrite E. eauto.
Qed.

Lemma Open_description_on_list lst h (reader : R) pc x off tp c :
  h !! lst = Some x -> data x = DefinitionList off tp ->
  index (text.PeekLine reader) (parser.BlockOffset pc) = Ok c ->
  pendingAttached h tp = true ->
  exists res, definitionDescriptionParser_Open h lst reader pc = Ok res.
Proof.
  intros Hx D Hc Hp.
  destruct (Byte.eqb c colon) eqn:Ecol.
  - apply Byte.byte_dec_bl in Ecol. subst c.
    pose proof (description_open_run _ _ _ _ _ _ _ Hx D Hc) as Hrun.
    destruct tp as [para|].
    + apply pendingAttached_Some in Hp as (px & q & qx & Hp & Dp & Hpar & Hq).
      destruct (Hrun _ _ _ Hp Dp Hpar Hq) as (h' & r' & E & _). eauto.
    + destruct Hrun as (r' & E). eauto.
  - unfold definitionDescriptionParser_Open. rewrite Hc. cbn [bind].
    rewrite Ecol. cbn [negb]. eauto.
Qed.

Lemma Open_description_off_list lst h (reader : R) pc c :
  ~ isDefinitionList h lst ->
  index (text.PeekLine reader) (parser.BlockOffset pc) = Ok c ->
  definitionDescriptionParser_Open h lst reader pc =
    if Byte.eqb c colon then Panic
    else Ok (None, parser.NoChildren, h, reader).
Proof.
  intros N Hc. unfold definitionDescriptionParser_Open. rewrite Hc.
  cbn [bind]. destruct (Byte.eqb c colon); [|done]. cbn [negb].
  destruct (ast.asDefinitionList h (Some lst)) eqn:El; [|done].
  destruct N. unfold isDefinitionList. rewrite El. eauto.
Qed.

Lemma Close_on_description h node (reader : R) pc :
  isDefinitionDescription h node -> attached h node = true ->
  exists h', definitionDescriptionParser_Close h node reader pc = Ok h'.
Proof.
  intros (x & t & Hx & D) Hatt.
  rewrite (Close_run _ _ _ _ _ _ Hx D Hatt).
  destruct (negb (blankPreviousLines x)); [|eauto].
  destruct (firstParagraph h (children x)) as [g|] eqn:Ef; [|eauto].
  apply firstParagraph_Some in Ef as [Hin Hpar].
  destruct (attached_spec _ _ Hatt) as (x' & Hx' & _ & Hch).
  assert (x' = x) as -> by congruence.
  destruct (Hch g Hin) as (gx & Hg & Hgp).
  destruct (isParagraph_true _ _ Hpar) as (gx' & Hg' & Dg).
  assert (Hne : g <> node) by (intros ->; congruence).
  assert (Hlt : (node < length h)%nat) by (eapply lookup_lt_Some; eauto).
  erewrite replaceByTextBlock_Ok; [eauto| | |done|done].
  - by apply list_lookup_insert_eq.
  - by rewrite list_lookup_insert_ne.
Qed.

Lemma Close_off_description h node (reader : R) pc :
  ~ isDefinitionDescription h node ->
  definitionDescriptionParser_Close h node reader pc = Panic.
Proof.
  intros N. unfold definitionDescriptionParser_Close, ast.toDefinitionDescription.
  unfold deref. destruct (h !! node) as [x|] eqn:Hx; [|done]. cbn [bind].
  destruct (data x) eqn:D; try done.
  destruct N. exists x, IsTight. done.
Qed.

(** C9 (amended).  With the node of the kind the hook assumes, the
    block offset inside the line, the pending paragraph attached to a
    parent and the children of the description attached to it, the three
    hooks return.  With a node of another kind, [Continue] returns on a
    blank line and panics on any other, the description opener returns no
    match when the character at the block offset is not the marker and
    panics when it is, and [Close] panics; no outcome is an error value. *)
Theorem hooks_panic_on_kind_violation :
  (forall h node (reader : R) pc,
      isDefinitionList h node ->
      exists res, definitionListParser_Continue h node reader pc = Ok res)
  /\ (forall h lst (reader : R) pc x off tp c,
      h !! lst = Some x -> data x = DefinitionList off tp ->
      index (text.PeekLine reader) (parser.BlockOffset pc) = Ok c ->
      pendingAttached h tp = true ->
      exists res, definitionDescriptionParser_Open h lst reader pc = Ok res)
  /\ (forall h node (reader : R) pc,
      isDefinitionDescription h node -> attached h node = true ->
      exists h', definitionDescriptionParser_Close h node reader pc = Ok h')
  /\ (forall h node (reader : R) pc,
      ~ isDefinitionList h node ->
      definitionListParser_Continue h node reader pc =
        if util.IsBlank (text.PeekLine reader)
        then Ok (Z.lor parser.Continue parser.HasChildren, reader)
        else Panic)
  /\ (forall h lst (reader : R) pc c,
      ~ isDefinitionList h lst ->
      index (text.PeekLine reader) (parser.BlockOffset pc) = Ok c ->
      definitionDescriptionParser_Open h lst reader pc =
        if Byte.eqb c colon then Panic
        else Ok (None, parser.NoChildren, h, reader))
  /\ (forall h node (reader : R) pc,
      ~ isDefinitionDescription h node ->
      definitionDescriptionParser_Close h node reader pc = Panic).
Proof.
  split; [exact Continue_on_list|].
  split; [intros h lst; exact (Open_description_on_list lst h)|].
  split; [exact Close_on_description|].
  split; [exact Continue_off_list|].
  split; [intros h lst; exact (Open_description_off_list lst h)|].
  exact Close_off_description.
Qed.

End Panics.

(** ** The hooks on concrete documents *)

Import (hints) host.

Section OnDocuments.

Import Examples.


Lemma definitionListParser_Open_offset_witness :
  definitionListParser_Open paragraphHeap 0%nat line2 atColumn0
    = Ok (Some 2%nat, parser.HasChildren,
          paragraphHeap ++ [newNode (DefinitionList 2 (Some 1%nat))], line2)
  /\ index (text.PeekLine line2) 0 = Ok colon
  /\ 1 <= (util.IndentWidth (drop (Z.to_nat (0 + 1)) (text.PeekLine line2)) (0 + 1)).1
  /\ ast.Offset (paragraphHeap ++ [newNode (DefinitionList 2 (Some 1%nat))])
       (Some 2%nat)
     = Ok ((if 8 <=? (util.IndentWidth
                        (drop (Z.to_nat (0 + 1)) (text.PeekLine line2)) (0 + 1)).1
            then 5
            else (util.IndentWidth
                    (drop (Z.to_nat (0 + 1)) (text.PeekLine line2)) (0 + 1)).1)
           + 0 + 1).
Proof.
  assert (E : definitionListParser_Open paragraphHeap 0%nat line2 atColumn0
    = Ok (Some 2%nat, parser.HasChildren,
          paragraphHeap ++ [newNode (DefinitionList 2 (Some 1%nat))], line2))
    by reflexivity.
  split; [exact E|].
  exact (definitionListParser_Open_offset _ _ _ _ _ _ _ _ E).
Defined.

(** Without a space after the marker the list opener finds no match. *)
Lemma definitionListParser_Open_no_match_witness :
  definitionListParser_Open paragraphHeap 0%nat noSpaceLine atColumn0
    = Ok (None, parser.NoChildren, paragraphHeap, noSpaceLine)
  /\ ((@None NodeId = None <->
        isDefinitionList paragraphHeap 0%nat
        \/ notMarker (text.PeekLine noSpaceLine) 0
        \/ widthAfterMarker (text.PeekLine noSpaceLine) 0 < 1
        \/ noTermContext paragraphHeap 0%nat)
      /\ (@None NodeId = None ->
          parser.NoChildren = parser.NoChildren
          /\ paragraphHeap = paragraphHeap /\ noSpaceLine = noSpaceLine)).
Proof.
  assert (E : definitionListParser_Open paragraphHeap 0%nat noSpaceLine atColumn0
    = Ok (None, parser.NoChildren, paragraphHeap, noSpaceLine)) by reflexivity.
  split; [exact E|].
  exact (definitionListParser_Open_no_match _ _ _ _ _ _ _ _ E).
Defined.

(** The fourth line is indented by the offset of the list: the list goes
    on and the reader stands after the two spaces. *)
Lemma definitionListParser_Continue_cases_witness :
  twoParagraphs !! 1%nat
    = Some (mkNode (DefinitionList 2 None) (Some 0%nat) [2%nat; 3%nat] [] false)
  /\ definitionListParser_Continue twoParagraphs 1%nat line4 atColumn0
     = Ok (Z.lor parser.Continue parser.HasChildren,
           host.mkReader appleSource 15 (NewSegmentPadding 17 21 0)).
Proof.
  split; [reflexivity|].
  rewrite (definitionListParser_Continue_cases twoParagraphs 1%nat line4
             atColumn0 _ 2 None eq_refl eq_refl).
  reflexivity.
Defined.



(** C9, as stated, fails on both sides.  With the kinds respected, the
    description opener panics on a block offset outside the line.  With
    the kinds violated, [Continue] on a paragraph returns on a blank line,
    and the description opener under the document returns no match on a
    line that does not begin with the marker. *)
Lemma hooks_kind_is_not_the_whole_contract :
  (ast.asDefinitionList pendingHeap (Some 2%nat) = Some 2%nat
   /\ definitionDescriptionParser_Open pendingHeap 2%nat line3 (parser.mkContext 5)
      = Panic)
  /\ (ast.asDefinitionList twoParagraphs (Some 4%nat) = None
      /\ definitionListParser_Continue twoParagraphs 4%nat line3 atColumn0
         = Ok (Z.lor parser.Continue parser.HasChildren, line3))
  /\ (ast.asDefinitionList paragraphHeap (Some 0%nat) = None
      /\ definitionDescriptionParser_Open paragraphHeap 0%nat line1 atColumn0
         = Ok (None, parser.NoChildren, paragraphHeap, line1)).
Proof. repeat split; reflexivity. Qed.

(** C2 on a tight description with two paragraphs: the call returns, the
    description is tight, its first paragraph has become the text block of
    node 6 with the same lines, and its second child is still a
    paragraph. *)
Theorem definitionDescriptionParser_Close_two_paragraphs :
  exists h',
    definitionDescriptionParser_Close twoParagraphs 3%nat line4 atColumn0 = Ok h'
    /\ gast.HasBlankPreviousLines twoParagraphs 3%nat = Ok false
    /\ ast.IsTight h' 3%nat = Ok true
    /\ (children <$> h' !! 3%nat) = Some [6%nat; 5%nat]
    /\ h' !! 6%nat = Some (textBlockNode 3%nat [NewSegmentPadding 8 14 0])
    /\ gast.isParagraph twoParagraphs (Some 5%nat) = true
    /\ gast.isParagraph h' (Some 5%nat) = true.
Proof.
  eexists. split; [vm_compute; reflexivity|].
  repeat split; reflexivity.
Qed.

(** The renderer on the description of [twoParagraphs], which is not
    tight. *)
Lemma render_functions_output_witness :
  twoParagraphs !! 3%nat
    = Some (mkNode (DefinitionDescription false) (Some 1%nat)
              [4%nat; 5%nat] [] false)
  /\ renderDefinitionDescription plainRenderer "" appleSource twoParagraphs
       3%nat true
     = Ok ("<dd>" +:+ nl, gast.WalkContinue, None).
Proof.
  split; [reflexivity|].
  destruct (render_functions_output plainRenderer "" appleSource twoParagraphs
              3%nat _ false true eq_refl eq_refl) as (_ & _ & E & _).
  exact E.
Defined.

Lemma render_pass_repeatable_witness :
  exists written,
    renderPass (RegisterFuncs plainRenderer noFuncs) "" appleSource
      twoParagraphs listVisits = Ok ("" +:+ written)
    /\ renderPass (RegisterFuncs plainRenderer noFuncs) ("" +:+ written)
         appleSource twoParagraphs listVisits
       = Ok (("" +:+ written) +:+ written).
Proof.
  destruct (render_pass_repeatable plainRenderer plainRenderer ""
              ("<dl>" +:+ nl +:+ "<dt></dt>" +:+ nl +:+ "<dd>" +:+ nl
               +:+ "</dd>" +:+ nl +:+ "</dl>" +:+ nl)
              appleSource appleSource twoParagraphs listVisits _ eq_refl)
    as (written & Eout & E2).
  exists written. split.
  - rewrite <- Eout. reflexivity.
  - rewrite <- Eout. exact E2.
Defined.

Lemma Close_sets_tightness_witness :
  exists h',
    definitionDescriptionParser_Close twoParagraphs 3%nat line4 atColumn0 = Ok h'
    /\ ast.IsTight h' 3%nat = Ok true.
Proof.
  destruct (Close_sets_tightness (R := host.reader)
              twoParagraphs 3%nat line4 atColumn0 _ false
              eq_refl eq_refl eq_refl) as (h' & E & T & _).
  exists h'. split; [exact E | exact T].
Defined.

Lemma Close_replaces_first_paragraph_witness :
  exists h',
    definitionDescriptionParser_Close twoParagraphs 3%nat line4 atColumn0 = Ok h'
    /\ h' !! 6%nat = Some (textBlockNode 3%nat [NewSegmentPadding 8 14 0])
    /\ h' !! 5%nat = twoParagraphs !! 5%nat.
Proof.
  destruct (Close_replaces_first_paragraph (R := host.reader)
              twoParagraphs 3%nat line4 atColumn0 _ false [] 4%nat _ [5%nat]
              eq_refl eq_refl eq_refl eq_refl eq_refl eq_refl eq_refl eq_refl)
    as (h' & E & -> & Hrest).
  eexists. split; [exact E|]. split; [reflexivity|].
  apply Hrest; [by apply list_elem_of_singleton | done].
Defined.

End OnDocuments.

(** ** A term line and its description, from source to HTML *)

Lemma IsSpace_false b : host.IsSpace b = false ->
  Byte.eqb b host.space = false /\ Byte.eqb b host.tab = false /\ Byte.eqb b host.lf = false.
Proof.
  unfold host.IsSpace. intros E.
  repeat (apply orb_false_iff in E as [E ?]). done.
Qed.

Lemma IndentWidth_none b rest col :
  host.IsSpace b = false -> host.IndentWidth (b :: rest) col = (0, 0).
Proof.
  intros (E1 & E2 & _)%IsSpace_false. unfold host.IndentWidth. simpl.
  by rewrite E1, E2.
Qed.

Lemma IndentWidth_one b rest col :
  host.IsSpace b = false ->
  host.IndentWidth (host.space :: b :: rest) col = (1, 1).
Proof.
  intros (E1 & E2 & _)%IsSpace_false. unfold host.IndentWidth. simpl.
  by rewrite E1, E2.
Qed.

Lemma IndentPosition_one b rest col :
  host.IsSpace b = false ->
  host.IndentPosition (host.space :: b :: rest) col 1 = (1, 0).
Proof.
  intros (E1 & E2 & _)%IsSpace_false. unfold host.IndentPosition. simpl.
  rewrite E1, E2. simpl. done.
Qed.

Lemma IsBlank_cons_false b rest :
  host.IsSpace b = false -> host.IsBlank (b :: rest) = false.
Proof. intros E. unfold host.IsBlank. simpl. by rewrite E. Qed.

(** Slices of the source. *)
Lemma slice_0 (a : list byte) (e : Z) : host.slice a 0 e = take (Z.to_nat e) a.
Proof. unfold host.slice. rewrite Z.sub_0_r. by rewrite drop_0. Qed.

Lemma slice_app_l (a b : list byte) :
  host.slice (a ++ b) 0 (Z.of_nat (length a)) = a.
Proof. rewrite slice_0, Nat2Z.id. by rewrite take_app_length. Qed.

Lemma slice_prefix (a b : list byte) (e : Z) :
  e <= Z.of_nat (length a) ->
  host.slice (a ++ b) 0 e = host.slice a 0 e.
Proof.
  intros He. rewrite !slice_0. rewrite take_app_le; [done|lia].
Qed.

Lemma slice_shift (a b : list byte) (s e : Z) :
  0 <= s ->
  host.slice (a ++ b) (Z.of_nat (length a) + s) (Z.of_nat (length a) + e)
  = host.slice b s e.
Proof.
  intros Hs. unfold host.slice.
  replace (Z.of_nat (length a) + e - (Z.of_nat (length a) + s)) with (e - s) by lia.
  replace (Z.to_nat (Z.of_nat (length a) + s)) with (length a + Z.to_nat s)%nat by lia.
  by rewrite drop_app_add.
Qed.

Lemma slice_all (a : list byte) : host.slice a 0 (Z.of_nat (length a)) = a.
Proof. rewrite slice_0, Nat2Z.id. by rewrite firstn_all. Qed.

Lemma slice_tail (bs : list byte) s e x t :
  0 <= s -> host.slice bs s e = x :: t -> host.slice bs (s + 1) e = t.
Proof.
  unfold host.slice. intros Hs E.
  destruct (Z.to_nat (e - s)) as [|k] eqn:Ek; [by rewrite take_0 in E|].
  replace (Z.to_nat (e - (s + 1))) with k by lia.
  replace (Z.to_nat (s + 1)) with (Z.to_nat s + 1)%nat by lia.
  rewrite <- drop_drop.
  destruct (drop (Z.to_nat s) bs) as [|y rest] eqn:Ed; [done|].
  simpl in E. injection E as -> <-. done.
Qed.

Lemma PeekLine_readerOn source s e :
  host.PeekLine (driver.readerOn source (NewSegmentPadding s e 0))
  = host.slice source s e.
Proof. reflexivity. Qed.

Lemma openBlocks_step fuel h parent r b opened :
  driver.openBlocks (S fuel) h parent r b opened =
      if host.IsBlank (host.PeekLine r) then Ok (h, opened)
      else
        let! res := definitionListParser_Open h parent r (driver.contextOf r) in
        match res with
        | (Some l, _, h1, r1) =>
            let! h2 := driver.attach h1 parent l b in
            driver.openBlocks fuel h2 l r1 b (l :: opened)
        | (None, _, _, _) =>
            match ast.asDefinitionList h (Some parent) with
            | Some _ =>
                let! res := definitionDescriptionParser_Open h parent r (driver.contextOf r) in
                match res with
                | (Some d, _, h1, r1) =>
                    let! h2 := driver.attach h1 parent d b in
                    driver.openBlocks fuel h2 d r1 b (d :: opened)
                | (None, _, _, _) =>
                    let! res := driver.openParagraph h parent r b in
                    Ok (res.2, res.1 :: opened)
                end
            | None =>
                let! res := driver.openParagraph h parent r b in
                Ok (res.2, res.1 :: opened)
            end
        end.
Proof. reflexivity. Qed.


Section OpenerFacts.
Context {R : Type} `{!text.Reader R} `{!util.Ops}.

Lemma list_open_no_context h parent (reader : R) pc c :
  ast.asDefinitionList h (Some parent) = None ->
  index (text.PeekLine reader) (parser.BlockOffset pc) = Ok c ->
  gast.LastChild h parent = Ok None ->
  definitionListParser_Open h parent reader pc
  = Ok (None, parser.NoChildren, h, reader).
Proof.
  intros Hp Hc Hl. unfold definitionListParser_Open. rewrite Hp, Hc.
  cbn [bind]. destruct (negb _); [done|]. rewrite Hl. cbn [bind].
  rewrite (sliceFrom_after_index _ _ _ Hc). cbn [bind].
  destruct (_ <? 1); done.
Qed.

Lemma list_open_creates h parent (reader : R) pc para prev :
  ast.asDefinitionList h (Some parent) = None ->
  index (text.PeekLine reader) (parser.BlockOffset pc) = Ok colon ->
  1 <= widthAfterMarker (text.PeekLine reader) (parser.BlockOffset pc) ->
  gast.LastChild h parent = Ok (Some para) ->
  gast.isParagraph h (Some para) = true ->
  gast.PreviousSibling h para = Ok prev ->
  ast.asDefinitionList h prev = None ->
  definitionListParser_Open h parent reader pc
  = Ok (Some (length h), parser.HasChildren,
        h ++ [newNode (DefinitionList
                         (listOffset (text.PeekLine reader) (parser.BlockOffset pc))
                         (Some para))],
        reader).
Proof.
  intros Hp Hc Hw Hl Hpar Hprev Hnl. unfold definitionListParser_Open.
  rewrite Hp, Hc. cbn [bind].
  replace (Byte.eqb colon colon) with true by done. cbn [negb].
  rewrite Hl. cbn [bind]. rewrite (sliceFrom_after_index _ _ _ Hc). cbn [bind].
  fold (widthAfterMarker (text.PeekLine reader) (parser.BlockOffset pc)).
  destruct (Z.ltb_spec
              (widthAfterMarker (text.PeekLine reader) (parser.BlockOffset pc)) 1);
    [lia|].
  rewrite Hpar, Hprev. cbn [bind]. rewrite Hnl.
  unfold ast.NewDefinitionList, alloc, listOffset.
  by rewrite Z.add_assoc.
Qed.

End OpenerFacts.

Lemma plainLine_spec bs :
  driver.plainLine bs = true ->
  (exists first rest, bs = first :: rest /\ host.IsSpace first = false)
  /\ (exists final front, bs = front ++ [final] /\ host.IsSpace final = false)
  /\ Forall (fun c => Byte.eqb c host.lf = false) bs.
Proof.
  unfold driver.plainLine. intros [E All]%andb_prop.
  destruct bs as [|first rest]; [discriminate|].
  destruct (rev (first :: rest)) as [|final tl] eqn:Er; [discriminate|].
  apply andb_prop in E as [E1 E2].
  apply negb_true_iff in E1. apply negb_true_iff in E2.
  split; [eauto|]. split.
  - exists final, (rev tl). split; [|done].
    rewrite <- (rev_involutive (first :: rest)), Er. done.
  - apply Forall_forall. intros c Hc. rewrite forallb_forall in All.
    apply negb_true_iff, All. by apply list_elem_of_In.
Qed.

Lemma lineSegmentsFrom_line bs rest start cur :
  Forall (fun c => Byte.eqb c host.lf = false) bs ->
  driver.lineSegmentsFrom (bs ++ host.lf :: rest) start cur
  = NewSegmentPadding start (cur + Z.of_nat (length bs) + 1) 0
      :: driver.lineSegmentsFrom rest (cur + Z.of_nat (length bs) + 1)
           (cur + Z.of_nat (length bs) + 1).
Proof.
  revert cur. induction bs as [|c bs IH]; intros cur H.
  - simpl. rewrite Z.add_0_r. done.
  - apply Forall_cons in H as [Hc H]. cbn [app driver.lineSegmentsFrom].
    rewrite Hc. rewrite IH by done.
    replace (cur + 1 + Z.of_nat (length bs) + 1)
      with (cur + Z.of_nat (length (c :: bs)) + 1) by (simpl length; lia).
    done.
Qed.

Lemma trimRightSpaceLength_plain front final :
  host.IsSpace final = false ->
  host.trimRightSpaceLength (rev (front ++ [final])) = 0.
Proof. intros E. rewrite rev_app_distr. simpl. by rewrite E. Qed.

Lemma trimRightSpaceLength_line front final :
  host.IsSpace final = false ->
  host.trimRightSpaceLength (rev ((front ++ [final]) ++ [host.lf])) = 1.
Proof.
  intros E. rewrite rev_app_distr. cbn [rev app host.trimRightSpaceLength].
  replace (host.IsSpace host.lf) with true by done.
  by rewrite (trimRightSpaceLength_plain _ _ E).
Qed.

(** The text of a line of the source: the segment [s, e) holds [bs] and a
    line feed. *)
Lemma lineText_line source s e bs :
  driver.plainLine bs = true ->
  host.slice source s e = bs ++ [host.lf] ->
  0 <= s -> e = s + Z.of_nat (length bs) + 1 ->
  host.slice source s (e - 1) = bs ->
  driver.lineText source (NewSegmentPadding s e 0) = string_of_list_byte bs.
Proof.
  intros Hp Hs Hs0 He Hs1.
  destruct (plainLine_spec _ Hp) as (_ & (final & front & -> & Hf) & _).
  unfold driver.lineText, host.TrimRightSpace.
  cbn [Start Stop Padding]. rewrite Hs.
  rewrite (trimRightSpaceLength_line _ _ Hf).
  rewrite !length_app. cbn [length].
  destruct (Z.eqb_spec 1 (Z.of_nat (length front + 1 + 1))) as [E|_]; [lia|].
  cbn [Start Stop]. by rewrite Hs1.
Qed.

Lemma lineText_trimmed source s e bs :
  driver.plainLine bs = true ->
  host.slice source s e = bs ->
  driver.lineText source (NewSegmentPadding s e 0) = string_of_list_byte bs.
Proof.
  intros Hp Hs.
  destruct (plainLine_spec _ Hp) as (_ & (final & front & -> & Hf) & _).
  unfold driver.lineText, host.TrimRightSpace.
  cbn [Start Stop Padding]. rewrite Hs.
  rewrite (trimRightSpaceLength_plain _ _ Hf).
  rewrite !length_app. cbn [length].
  destruct (Z.eqb_spec 0 (Z.of_nat (length front + 1))) as [E|_]; [lia|].
  cbn [Start Stop]. rewrite Z.sub_0_r. by rewrite Hs.
Qed.

Lemma append_nil_l (a : string) : "" +:+ a = a.
Proof. reflexivity. Qed.

Section TwoLines.

Local Opaque host.PeekLine host.LineOffset host.slice host.IndentWidth
  host.IndentPosition host.IsBlank host.TrimRightSpace driver.openBlocks.

Variables (source : list byte) (e1 e2 : Z) (t0 b : byte) (rest1 rest2 : list byte).
Hypothesis (He : 0 < e1 < e2).
Hypothesis (F1 : host.slice source 0 e1 = t0 :: rest1).
Hypothesis (S1 : host.IsSpace t0 = false).
Hypothesis (F2 : host.slice source e1 e2 = colon :: host.space :: b :: rest2).
Hypothesis (S2 : host.IsSpace b = false).

Local Abbreviation seg1 := (NewSegmentPadding 0 e1 0).
Local Abbreviation seg2 := (NewSegmentPadding e1 e2 0).

Lemma first_line :
  driver.processLine source driver.start seg1
  = Ok (driver.mkState
          [ mkNode Document None [1%nat] [] false;
            mkNode Paragraph (Some 0%nat) [] [seg1] false ] [1%nat] false).
Proof.
  unfold driver.processLine. cbn [driver.opened driver.start rev driver.continueOpened bind driver.arena app].
  rewrite PeekLine_readerOn, F1, (IsBlank_cons_false _ _ S1).
  rewrite openBlocks_step. rewrite PeekLine_readerOn, F1, (IsBlank_cons_false _ _ S1).
  unfold driver.contextOf. rewrite PeekLine_readerOn, F1, (IndentWidth_none _ _ _ S1).
  cbn [snd].
  erewrite list_open_no_context; [| reflexivity | | reflexivity].
  2:{ cbn [parser.BlockOffset text.PeekLine host.lineReader].
      rewrite PeekLine_readerOn, F1. reflexivity. }
  cbn [bind ast.asDefinitionList]. cbn.
  unfold driver.contentOf. rewrite PeekLine_readerOn, F1, (IndentWidth_none _ _ _ S1).
  reflexivity.
Qed.

Local Abbreviation h1 :=
  ([ mkNode Document None [1%nat] [] false;
    mkNode Paragraph (Some 0%nat) [] [seg1] false]).

Local Abbreviation r2' :=
  (host.mkReader source e1 (NewSegmentPadding (e1 + 1) e2 0)).

Lemma advance_second :
  host.AdvanceAndSetPadding (driver.readerOn source seg2) 1 0 = r2'.
Proof.
  unfold host.AdvanceAndSetPadding, host.Advance, driver.readerOn.
  cbn [host.pos host.source host.head Start Stop Padding].
  replace (Z.min (Z.max 1 0) 0) with 0 by lia.
  replace (Z.min (Z.max 1 0 - 0) (e2 - e1)) with 1 by lia.
  cbn. done.
Qed.

Lemma PeekLine_r2' : host.PeekLine r2' = host.space :: b :: rest2.
Proof.
  change (host.slice source (e1 + 1) e2 = host.space :: b :: rest2).
  exact (slice_tail source e1 e2 colon _ ltac:(lia) F2).
Qed.

Lemma IsBlank_r2' : host.IsBlank (host.space :: b :: rest2) = false.
Proof.
  Local Transparent host.IsBlank.
  unfold host.IsBlank. cbn [forallb]. rewrite S2.
  Local Opaque host.IsBlank.
  reflexivity.
Qed.

Local Abbreviation hB :=
  ([ mkNode Document None [1%nat; 2%nat] [] false;
    mkNode Paragraph (Some 0%nat) [] [seg1] false;
    mkNode (DefinitionList 2 (Some 1%nat)) (Some 0%nat) [] [] false]).

Local Abbreviation hC :=
  ([ mkNode Document None [2%nat] [] false;
    mkNode Paragraph None [] [seg1] false;
    mkNode (DefinitionList 2 None) (Some 0%nat) [3%nat; 4%nat] [] false;
    termNode 2%nat (host.TrimRightSpace seg1 source);
    mkNode (DefinitionDescription false) (Some 2%nat) [] [] false]).

Lemma width_second :
  widthAfterMarker (colon :: host.space :: b :: rest2) 0 = 1.
Proof.
  unfold widthAfterMarker.
  change (drop (Z.to_nat (0 + 1)) (colon :: host.space :: b :: rest2))
    with (host.space :: b :: rest2).
  cbn [util.IndentWidth host.ops]. by rewrite (IndentWidth_one _ _ _ S2).
Qed.

Lemma list_open_second :
  definitionListParser_Open h1 0%nat (driver.readerOn source seg2)
    (parser.mkContext 0)
  = Ok (Some 2%nat, parser.HasChildren,
        h1 ++ [newNode (DefinitionList 2 (Some 1%nat))],
        driver.readerOn source seg2).
Proof.
  erewrite list_open_creates with (para := 1%nat) (prev := None);
    try reflexivity; 
    cbn [text.PeekLine host.lineReader parser.BlockOffset];
    rewrite PeekLine_readerOn, F2.
  - unfold listOffset. rewrite width_second. reflexivity.
  - reflexivity.
  - rewrite width_second. lia.
Qed.

Lemma description_open_second :
  definitionDescriptionParser_Open hB 2%nat (driver.readerOn source seg2)
    (parser.mkContext 0)
  = Ok (Some 4%nat, parser.HasChildren,
        [ mkNode Document None [2%nat] [] false;
          mkNode Paragraph None [] [seg1] false;
          mkNode (DefinitionList 2 None) (Some 0%nat) [3%nat] [] false;
          termNode 2%nat (host.TrimRightSpace seg1 source);
          newNode (DefinitionDescription false) ],
        r2').
Proof.
  erewrite description_open_explicit with (para := 1%nat) (q := 0%nat);
    try reflexivity.
  - cbn [text.PeekLine host.lineReader parser.BlockOffset].
    rewrite PeekLine_readerOn, F2.
    change (drop (Z.to_nat (0 + 1)) (colon :: host.space :: b :: rest2))
      with (host.space :: b :: rest2).
    cbn [util.IndentPosition host.ops].
    change (2 - 0 - 1) with 1. rewrite (IndentPosition_one _ _ _ S2).
    cbn [fst snd text.AdvanceAndSetPadding host.lineReader].
    rewrite advance_second. reflexivity.
  - cbn [text.PeekLine host.lineReader parser.BlockOffset].
    rewrite PeekLine_readerOn, F2. reflexivity.
Qed.

Lemma contextOf_second :
  driver.contextOf (driver.readerOn source seg2) = parser.mkContext 0.
Proof.
  unfold driver.contextOf. rewrite PeekLine_readerOn, F2.
  by rewrite (IndentWidth_none colon _ _ eq_refl).
Qed.

Lemma contextOf_r2' : driver.contextOf r2' = parser.mkContext 1.
Proof.
  unfold driver.contextOf. rewrite PeekLine_r2'.
  by rewrite (IndentWidth_one _ _ _ S2).
Qed.

Lemma contentOf_r2' : driver.contentOf r2' = NewSegmentPadding (e1 + 2) e2 0.
Proof.
  unfold driver.contentOf. rewrite PeekLine_r2', (IndentWidth_one _ _ _ S2).
  cbn [snd host.pos Start Stop]. f_equal. lia.
Qed.

Lemma second_line :
  driver.processLine source (driver.mkState h1 [1%nat] false) seg2
  = Ok (driver.mkState
          [ mkNode Document None [2%nat] [] false;
            mkNode Paragraph None [] [seg1] false;
            mkNode (DefinitionList 2 None) (Some 0%nat) [3%nat; 4%nat] [] false;
            termNode 2%nat (host.TrimRightSpace seg1 source);
            mkNode (DefinitionDescription false) (Some 2%nat) [5%nat] [] false;
            mkNode Paragraph (Some 4%nat) [] [NewSegmentPadding (e1 + 2) e2 0] false ]
          [5%nat; 4%nat; 2%nat] false).
Proof.
  unfold driver.processLine.
  cbn [driver.opened driver.arena driver.blank rev app].
  cbn [driver.continueOpened bind deref lookup list_lookup data].
  rewrite !PeekLine_readerOn, F2.
  replace (host.IsBlank (colon :: host.space :: b :: rest2)) with false
    by (symmetry; apply IsBlank_cons_false; reflexivity).
  change (gast.isParagraph h1 (Some 1%nat)) with true. cbv iota.
  change (gast.Parent h1 1) with (Ok (Some 0%nat)). cbn [bind].
  rewrite contextOf_second, list_open_second. cbn [bind].
  change (driver.attach (h1 ++ [newNode (DefinitionList 2 (Some 1%nat))]) 0 2 false)
    with (Ok hB). cbn [bind].
  (* the description opener under the list *)
  rewrite openBlocks_step. rewrite PeekLine_readerOn, F2.
  replace (host.IsBlank (colon :: host.space :: b :: rest2)) with false
    by (symmetry; apply IsBlank_cons_false; reflexivity).
  rewrite contextOf_second.
  change (definitionListParser_Open hB 2 (driver.readerOn source seg2)
            (parser.mkContext 0))
    with (Ok (@None NodeId, parser.NoChildren, hB, driver.readerOn source seg2)).
  cbn [bind]. change (ast.asDefinitionList hB (Some 2%nat)) with (Some 2%nat).
  cbv iota. rewrite description_open_second. cbn [bind].
  match goal with
  | |- context [driver.attach ?h 2 4 false] =>
      change (driver.attach h 2 4 false) with (Ok hC)
  end.
  cbn [bind].
  (* the rest of the line under the description *)
  rewrite openBlocks_step. rewrite PeekLine_r2', IsBlank_r2', contextOf_r2'.
  erewrite list_open_no_context with (c := b);
    [ | reflexivity
      | cbn [text.PeekLine host.lineReader parser.BlockOffset];
        rewrite PeekLine_r2'; reflexivity
      | reflexivity ].
  cbn [bind]. change (ast.asDefinitionList hC (Some 4%nat)) with (@None NodeId).
  cbv iota. unfold driver.openParagraph. rewrite contentOf_r2'.
  reflexivity.
Qed.

Local Abbreviation hF :=
  ([ mkNode Document None [2%nat] [] false;
     mkNode Paragraph None [] [seg1] false;
     mkNode (DefinitionList 2 None) (Some 0%nat) [3%nat; 4%nat] [] false;
     termNode 2%nat (host.TrimRightSpace seg1 source);
     mkNode (DefinitionDescription true) (Some 2%nat) [6%nat] [] false;
     mkNode Paragraph None [] [NewSegmentPadding (e1 + 2) e2 0] false;
     textBlockNode 4%nat [NewSegmentPadding (e1 + 2) e2 0] ]).

Lemma parse_two_lines :
  driver.lineSegments source = [seg1; seg2] ->
  driver.Parse source = Ok hF.
Proof.
  intros L. unfold driver.Parse. rewrite L.
  cbn [driver.processLines]. rewrite first_line. cbn [bind].
  rewrite second_line. cbn [bind driver.arena driver.opened].
  reflexivity.
Qed.

Local Opaque driver.lineText String.append.

Lemma walk_two_lines :
  driver.walk 7 (RegisterFuncs plainRenderer driver.hostFuncs) source hF "" 0%nat
  = Ok ("<dl>" +:+ nl +:+ "<dt>"
        +:+ driver.lineText source (host.TrimRightSpace seg1 source)
        +:+ "</dt>" +:+ nl +:+ "<dd>"
        +:+ driver.lineText source (NewSegmentPadding (e1 + 2) e2 0)
        +:+ "</dd>" +:+ nl +:+ "</dl>" +:+ nl).
Proof.
  generalize (NewSegmentPadding (e1 + 2) e2 0) as s2.
  generalize (host.TrimRightSpace seg1 source) as s1.
  generalize seg1 as s0. intros s0 s1 s2.
  lazy.
  rewrite !append_assoc, !append_nil_l. reflexivity.
Qed.
End TwoLines.

Lemma TrimRightSpace_line source e bs :
  driver.plainLine bs = true ->
  host.slice source 0 e = bs ++ [host.lf] ->
  host.TrimRightSpace (NewSegmentPadding 0 e 0) source
  = NewSegmentPadding 0 (e - 1) 0.
Proof.
  intros Hp Hs.
  destruct (plainLine_spec _ Hp) as (_ & (final & front & -> & Hf) & _).
  unfold host.TrimRightSpace. cbn [Start Stop Padding]. rewrite Hs.
  rewrite (trimRightSpaceLength_line _ _ Hf).
  rewrite !length_app. cbn [length].
  destruct (Z.eqb_spec 1 (Z.of_nat (length front + 1 + 1))) as [E|_]; [lia|].
  done.
Qed.



(** The same host on the source of [Examples.appleSource]: the second
    paragraph of the tight description keeps its paragraph tag. *)
Example two_paragraphs_render :
  driver.Convert Examples.appleSource
  = Ok ("<dl>" +:+ nl +:+ "<dt>Apple</dt>" +:+ nl
        +:+ "<dd>Fruit<p>Red</p>" +:+ nl +:+ "</dd>" +:+ nl
        +:+ "</dl>" +:+ nl).
Proof. vm_compute. reflexivity. Qed.

(** * Further properties of the hooks *)

(** ** The openers at the edges of a line *)

Lemma index_outside (line : list byte) (pos : Z) :
  pos < 0 \/ Z.of_nat (length line) <= pos -> index line pos = Panic.
Proof.
  intros Hb. unfold index. destruct (Z.leb_spec 0 pos) as [Hp|Hp]; [|done].
  rewrite lookup_ge_None_2; [done|lia].
Qed.

Section OpenersTogether.

Context {R : Type} `{!text.Reader R} `{!util.Ops}.

(** A match of the list opener was not under a DefinitionList. *)
Lemma open_match_parent h parent reader pc l st h' r' :
  definitionListParser_Open h parent reader pc = Ok (Some l, st, h', r') ->
  ast.asDefinitionList h (Some parent) = None.
Proof.
  unfold definitionListParser_Open.
  destruct (ast.asDefinitionList h (Some parent)); [discriminate|done].
Qed.

(** The list a match returns, as the arena holds it afterwards. *)
Lemma open_match_list h parent reader pc l st h' r' :
  definitionListParser_Open h parent reader pc = Ok (Some l, st, h', r') ->
  exists y tp,
    h' !! l = Some y
    /\ data y = DefinitionList
                  (listOffset (text.PeekLine reader) (parser.BlockOffset pc)) tp.
Proof.
  intros E.
  apply open_match_inv in E as (_ & _ & _ & _ & last & _ & Hcase).
  destruct Hcase as [(para & x & off & tp & _ & _ & _ & Hx & _ & ->)
                    |[(para & prev & _ & _ & _ & _ & -> & ->)
                     |(x & off & tp & _ & _ & Hx & _ & ->)]].
  - eexists _, _.
    split; [apply list_lookup_insert_eq; eapply lookup_lt_Some; eauto|].
    reflexivity.
  - eexists _, _. split; [apply lookup_snoc_new|reflexivity].
  - eexists _, _.
    split; [apply list_lookup_insert_eq; eapply lookup_lt_Some; eauto|].
    reflexivity.
Qed.

Lemma listOffset_bounds (line : list byte) (pos : Z) :
  1 <= widthAfterMarker line pos ->
  pos + 2 <= listOffset line pos <= pos + 8.
Proof.
  intros Hw. unfold listOffset.
  destruct (Z.leb_spec 8 (widthAfterMarker line pos)); lia.
Qed.

(** The [Offset] of a list that [definitionListParser.Open] returns lies
    from two to eight columns after the block offset, which is not
    negative: the marker, then at least one and, by the clamp, at most
    seven columns of blank space. *)
Theorem definitionListParser_Open_offset_bounds h parent reader pc l st h' r' :
  definitionListParser_Open h parent reader pc = Ok (Some l, st, h', r') ->
  let pos := parser.BlockOffset pc in
  exists off,
    ast.Offset h' (Some l) = Ok off
    /\ 0 <= pos /\ pos + 2 <= off <= pos + 8.
Proof.
  intros E pos.
  destruct (open_match_list _ _ _ _ _ _ _ _ E) as (y & tp & Hy & Dy).
  apply open_match_inv in E as (_ & _ & Hc & Hw & _).
  exists (listOffset (text.PeekLine reader) pos).
  split; [|split].
  - unfold ast.Offset. rewrite (deref_Some _ _ _ Hy). cbn [bind].
    by rewrite Dy.
  - apply index_Ok_bounds in Hc. lia.
  - by apply listOffset_bounds.
Qed.

Lemma Continue_closes h node (reader : R) pc x off para :
  h !! node = Some x -> data x = DefinitionList off para ->
  util.IsBlank (text.PeekLine reader) = false ->
  (util.IndentWidth (text.PeekLine reader) (text.LineOffset reader)).1 < off ->
  definitionListParser_Continue h node reader pc = Ok (parser.Close, reader).
Proof.
  intros Hx D Hb Hw. unfold definitionListParser_Continue. rewrite Hb.
  rewrite (asDefinitionList_of_data _ _ _ _ _ Hx D).
  unfold ast.Offset. rewrite (deref_Some _ _ _ Hx). cbn [bind]. rewrite D.
  cbn [bind].
  destruct (Z.ltb_spec
              (util.IndentWidth (text.PeekLine reader) (text.LineOffset reader)).1
              off); [done|lia].
Qed.

(** A list that [definitionListParser.Open] has returned for a marker at
    the block offset [pos] is closed by [definitionListParser.Continue] on
    every later line that is not blank and whose indentation width is less
    than [pos + 2]: a line that is not indented always ends the list. *)
Theorem definitionListParser_Continue_closes_opened
    h parent reader pc l st h' r' (later : R) pc' :
  definitionListParser_Open h parent reader pc = Ok (Some l, st, h', r') ->
  util.IsBlank (text.PeekLine later) = false ->
  (util.IndentWidth (text.PeekLine later) (text.LineOffset later)).1
    < parser.BlockOffset pc + 2 ->
  definitionListParser_Continue h' l later pc' = Ok (parser.Close, later).
Proof.
  intros E Hb Hw.
  destruct (open_match_list _ _ _ _ _ _ _ _ E) as (y & tp & Hy & Dy).
  apply open_match_inv in E as (_ & _ & _ & Hw1 & _).
  apply (Continue_closes _ _ _ _ _ _ _ Hy Dy Hb).
  pose proof (listOffset_bounds _ _ Hw1). lia.
Qed.

(** With the block offset outside the line (the empty line included)
    neither opener reads beyond the line: the list opener panics unless
    its parent is a DefinitionList, which it checks first and answers with
    no match; the description opener panics whatever its parent is. *)
Theorem openers_block_offset_outside_line h parent (reader : R) pc :
  parser.BlockOffset pc < 0
  \/ Z.of_nat (length (text.PeekLine reader)) <= parser.BlockOffset pc ->
  definitionListParser_Open h parent reader pc
    = match ast.asDefinitionList h (Some parent) with
      | Some _ => Ok (None, parser.NoChildren, h, reader)
      | None => Panic
      end
  /\ definitionDescriptionParser_Open h parent reader pc = Panic.
Proof.
  intros Hb. apply index_outside in Hb. split.
  - unfold definitionListParser_Open.
    destruct (ast.asDefinitionList h (Some parent)); [done|].
    by rewrite Hb.
  - unfold definitionDescriptionParser_Open. by rewrite Hb.
Qed.

(** The description opener on a marker line with nothing pending: the
    arena and the reader it leaves. *)
Lemma description_open_nothing_pending h lst reader pc x off :
  h !! lst = Some x -> data x = DefinitionList off None ->
  index (text.PeekLine reader) (parser.BlockOffset pc) = Ok colon ->
  let pos := parser.BlockOffset pc in
  let target :=
    util.IndentPosition (drop (Z.to_nat (pos + 1)) (text.PeekLine reader))
      (pos + 1) (off - pos - 1) in
  definitionDescriptionParser_Open h lst reader pc
  = Ok (Some (length h), parser.HasChildren,
        h ++ [newNode (DefinitionDescription false)],
        text.AdvanceAndSetPadding reader target.1 target.2).
Proof.
  intros Hx D Hc pos target.
  unfold definitionDescriptionParser_Open. rewrite Hc. cbn [bind].
  replace (Byte.eqb colon colon) with true by done. cbn [negb].
  rewrite (asDefinitionList_of_data _ _ _ _ _ Hx D).
  unfold ast.TemporaryParagraph, ast.SetTemporaryParagraph.
  rewrite (deref_Some _ _ _ Hx). cbn [bind]. rewrite D. cbn [bind].
  rewrite (sliceFrom_after_index _ _ _ Hc).
  assert (Eid : <[lst := setData (DefinitionList off None) x]> h = h).
  { assert (setData (DefinitionList off None) x = x) as ->
      by (destruct x; simpl in *; by subst).
    by apply list_insert_id. }
  rewrite Eid. cbn [bind].
  unfold ast.Offset. rewrite (deref_Some _ _ _ Hx). cbn [bind].
  rewrite D. cbn [bind]. fold pos. fold target.
  by destruct target as [cpos padding].
Qed.

(** The list opener and then the description opener on one marker line
    that follows a paragraph, the last child of a parent whose children are
    attached to it: the description opener returns a new description, the
    lines of the paragraph have become the terms of the list, the paragraph
    is out of the tree, nothing is pending, and the reader has been
    advanced to where the blank space after the marker reaches the width
    that the list opener took for the [Offset] (the clamped one). *)
Theorem openers_turn_paragraph_into_terms
    h parent reader pc l st h1 r1 para px :
  definitionListParser_Open h parent reader pc = Ok (Some l, st, h1, r1) ->
  attached h parent = true ->
  gast.LastChild h parent = Ok (Some para) ->
  h !! para = Some px -> data px = Paragraph ->
  let line := text.PeekLine reader in
  let pos := parser.BlockOffset pc in
  let w := widthAfterMarker line pos in
  let target := util.IndentPosition (drop (Z.to_nat (pos + 1)) line) (pos + 1)
                  (if 8 <=? w then 5 else w) in
  let n := length (lines px) in
  exists h2,
    definitionDescriptionParser_Open h1 l r1 pc
      = Ok (Some (length h1 + n)%nat, parser.HasChildren, h2,
            text.AdvanceAndSetPadding reader target.1 target.2)
    /\ termsAdded h1 h2 l (text.Source reader) (lines px)
    /\ ast.TemporaryParagraph h2 (Some l) = Ok None
    /\ gast.Parent h2 para = Ok None
    /\ (para ∉ childrenOf h2 parent)
    /\ h2 !! (length h1 + n)%nat = Some (newNode (DefinitionDescription false))
    /\ childrenOf h2 l = childrenOf h1 l ++ seq (length h1) n.
Proof.
  intros E Hatt Hlast Hp Dp line pos w target n.
  pose proof (open_match_parent _ _ _ _ _ _ _ _ E) as Hnl.
  destruct (attached_spec _ _ Hatt) as (qx & Hq & _ & Hch).
  assert (Hin : para ∈ children qx).
  { unfold gast.LastChild in Hlast. rewrite (deref_Some _ _ _ Hq) in Hlast.
    cbn [bind] in Hlast. injection Hlast as Hlast.
    apply last_Some in Hlast as [pre ->].
    rewrite elem_of_app, list_elem_of_singleton. tauto. }
  destruct (Hch _ Hin) as (px' & Hp' & Hpar).
  assert (px' = px) as -> by congruence.
  assert (Hpl : gast.isParagraph h (Some para) = true).
  { unfold gast.isParagraph. rewrite Hp. by apply bool_decide_eq_true. }
  assert (Hplt : (para < length h)%nat) by (eapply lookup_lt_Some; eauto).
  assert (Hqlt : (parent < length h)%nat) by (eapply lookup_lt_Some; eauto).
  apply open_match_inv in E as (_ & -> & Hc & Hw & last & Hl' & Hcase).
  fold line pos in Hc, Hw, Hcase.
  assert (last = Some para) as -> by congruence.
  assert (Hoff : listOffset line pos - pos - 1 = if 8 <=? w then 5 else w).
  { unfold listOffset. fold w. lia. }
  assert (Hrun : forall x1,
    h1 !! l = Some x1 -> data x1 = DefinitionList (listOffset line pos) (Some para) ->
    h1 !! para = Some px -> h1 !! parent = Some qx -> l <> parent ->
    exists h2,
      definitionDescriptionParser_Open h1 l reader pc
        = Ok (Some (length h1 + n)%nat, parser.HasChildren, h2,
              text.AdvanceAndSetPadding reader target.1 target.2)
      /\ termsAdded h1 h2 l (text.Source reader) (lines px)
      /\ ast.TemporaryParagraph h2 (Some l) = Ok None
      /\ gast.Parent h2 para = Ok None
      /\ (para ∉ childrenOf h2 parent)
      /\ h2 !! (length h1 + n)%nat = Some (newNode (DefinitionDescription false))
      /\ childrenOf h2 l = childrenOf h1 l ++ seq (length h1) n).
  { intros x1 H1l D1 H1p H1q Hne.
    rewrite (description_open_explicit _ _ _ _ _ _ _ _ _ _
               H1l D1 Hc H1p Dp Hpar H1q).
    fold line pos. rewrite Hoff. fold target.
    destruct (withTerms_lookups _ _ _ _ _ _ _ _ (text.Source reader)
                H1l D1 H1p Dp Hpar H1q)
      as (LR & Hterms & (y & Hy & Dy & Cy) & (py & Hpy & Ppy & _)
          & (qy & Hqy & Nqy) & _).
    fold n in LR. set (hW := withTerms _ _ _ _ _ _ _ _ _) in *.
    eexists. split; [reflexivity|].
    split.
    { intros i seg Hi.
      assert (i < n)%nat by (eapply lookup_lt_Some; eauto).
      rewrite lookup_app_l by lia. by apply Hterms. }
    split.
    { unfold ast.TemporaryParagraph.
      rewrite (deref_app_old _ _ _ _ Hy). cbn [bind]. by rewrite Dy. }
    split.
    { unfold gast.Parent. rewrite (deref_app_old _ _ _ _ Hpy). cbn [bind].
      by rewrite Ppy. }
    split.
    { unfold childrenOf.
      rewrite lookup_app_l by (eapply lookup_lt_Some; eauto).
      by rewrite Hqy. }
    split; [rewrite <- LR; apply lookup_snoc_new|].
    unfold childrenOf. rewrite (lookup_app_l _ _ _ (lookup_lt_Some _ _ _ Hy)).
    rewrite Hy, H1l, Cy. by rewrite decide_False by done. }
  destruct Hcase as [(para' & x & off & tp & [= <-] & _ & _ & Hx & Dx & ->)
                    |[(para' & prev & [= <-] & _ & _ & _ & -> & ->)
                     |(x & off & tp & _ & Hnp & _)]].
  - assert (Hll : (l < length h)%nat) by (eapply lookup_lt_Some; eauto).
    assert (l <> para) by (intros ->; congruence).
    assert (l <> parent).
    { intros ->. rewrite (asDefinitionList_of_data _ _ _ _ _ Hx Dx) in Hnl.
      discriminate. }
    apply (Hrun (setData (DefinitionList (listOffset line pos) (Some para)) x)).
    + by apply list_lookup_insert_eq.
    + reflexivity.
    + by rewrite list_lookup_insert_ne.
    + by rewrite list_lookup_insert_ne.
    + done.
  - apply (Hrun (newNode (DefinitionList (listOffset line pos) (Some para)))).
    + apply lookup_snoc_new.
    + reflexivity.
    + by rewrite lookup_app_l.
    + by rewrite lookup_app_l.
    + lia.
  - congruence.
Qed.

(** The list opener and then the description opener on a marker line that
    follows a DefinitionList, the last child of the parent: the list is
    taken up again with nothing pending, and the description opener makes
    no term and takes no node out; the one change it makes to the arena is
    the new description. *)
Theorem openers_add_description_to_last_list
    h parent reader pc l st h1 r1 lst :
  definitionListParser_Open h parent reader pc = Ok (Some l, st, h1, r1) ->
  gast.LastChild h parent = Ok (Some lst) ->
  isDefinitionList h lst ->
  let line := text.PeekLine reader in
  let pos := parser.BlockOffset pc in
  let w := widthAfterMarker line pos in
  let target := util.IndentPosition (drop (Z.to_nat (pos + 1)) line) (pos + 1)
                  (if 8 <=? w then 5 else w) in
  l = lst
  /\ ast.TemporaryParagraph h1 (Some l) = Ok None
  /\ length h1 = length h
  /\ definitionDescriptionParser_Open h1 l r1 pc
     = Ok (Some (length h1), parser.HasChildren,
           h1 ++ [newNode (DefinitionDescription false)],
           text.AdvanceAndSetPadding reader target.1 target.2).
Proof.
  intros E Hlast [l0 Hl0] line pos w target.
  apply asDefinitionList_Some in Hl0 as [[= <-] (x0 & off0 & tp0 & Hx0 & Dx0)].
  assert (Hnp : gast.isParagraph h (Some lst) = false).
  { unfold gast.isParagraph. rewrite Hx0. apply bool_decide_eq_false.
    rewrite Dx0. done. }
  apply open_match_inv in E as (_ & -> & Hc & Hw & last & Hl' & Hcase).
  fold line pos in Hc, Hw, Hcase.
  assert (last = Some lst) as -> by congruence.
  assert (Hoff : listOffset line pos - pos - 1 = if 8 <=? w then 5 else w).
  { unfold listOffset. fold w. lia. }
  destruct Hcase as [(para' & x & off & tp & _ & Hp & _)
                    |[(para' & prev & _ & Hp & _)
                     |(x & off & tp & [= <-] & _ & Hx & Dx & ->)]];
    [congruence|congruence|].
  assert (Hll : (lst < length h)%nat) by (eapply lookup_lt_Some; eauto).
  set (x1 := setData (DefinitionList (listOffset line pos) None) x).
  assert (H1 : <[lst := x1]> h !! lst = Some x1)
    by (by apply list_lookup_insert_eq).
  split; [done|]. split.
  { unfold ast.TemporaryParagraph. by rewrite (deref_Some _ _ _ H1). }
  split; [by rewrite length_insert|].
  rewrite (description_open_nothing_pending _ _ _ _ _ _ H1 eq_refl Hc).
  fold line pos. rewrite Hoff. fold target. by rewrite length_insert.
Qed.

(** A pending paragraph that has no parent makes the description opener
    panic on a marker line: the opener asks the parent of the paragraph to
    remove it without looking whether there is one. *)
Theorem definitionDescriptionParser_Open_detached_pending
    h lst (reader : R) pc x off para px :
  h !! lst = Some x -> data x = DefinitionList off (Some para) ->
  index (text.PeekLine reader) (parser.BlockOffset pc) = Ok colon ->
  h !! para = Some px -> data px = Paragraph -> parent px = None ->
  definitionDescriptionParser_Open h lst reader pc = Panic.
Proof.
  intros Hx D Hc Hp Dp Hpar.
  assert (Hlt : (lst < length h)%nat) by (eapply lookup_lt_Some; eauto).
  assert (Hne : para <> lst) by (intros ->; congruence).
  assert (Hplt : (para < length h)%nat) by (eapply lookup_lt_Some; eauto).
  unfold definitionDescriptionParser_Open. rewrite Hc. cbn [bind].
  replace (Byte.eqb colon colon) with true by done. cbn [negb].
  rewrite (asDefinitionList_of_data _ _ _ _ _ Hx D).
  unfold ast.TemporaryParagraph, ast.SetTemporaryParagraph.
  rewrite (deref_Some _ _ _ Hx). cbn [bind]. rewrite D. cbn [bind].
  unfold gast.Lines.
  rewrite deref_Some with (x := px) by (by rewrite list_lookup_insert_ne).
  cbn [bind].
  rewrite appendTerms_Ok
    with (sn := setData (DefinitionList off None) x)
    by (by apply list_lookup_insert_eq).
  cbn [bind]. unfold gast.Parent.
  rewrite deref_app_old with (gx := px).
  2:{ rewrite list_insert_insert_eq. by rewrite list_lookup_insert_ne. }
  cbn [bind]. by rewrite Hpar.
Qed.


End OpenersTogether.

(** ** More on closing a description *)

Lemma attached_intro h n x :
  h !! n = Some x -> NoDup (children x) ->
  (forall c, c ∈ children x ->
     exists cx, h !! c = Some cx /\ parent cx = Some n) ->
  attached h n = true.
Proof.
  intros Hx ND Hch. unfold attached. rewrite Hx.
  apply andb_true_intro. split; [by apply bool_decide_eq_true|].
  apply forallb_forall. intros c Hc. apply list_elem_of_In in Hc.
  destruct (Hch c Hc) as (cx & -> & Hp). by apply bool_decide_eq_true.
Qed.

Lemma firstParagraph_split h l g :
  firstParagraph h l = Some g ->
  exists pre rest,
    l = pre ++ g :: rest /\ firstParagraph h pre = None
    /\ gast.isParagraph h (Some g) = true.
Proof.
  unfold firstParagraph. induction l as [|c l IH]; cbn [find]; [discriminate|].
  destruct (gast.isParagraph h (Some c)) eqn:Ep.
  - intros [= ->]. exists [], l. done.
  - intros E. destruct (IH E) as (pre & rest & -> & Hpre & Hg).
    exists (c :: pre), rest. cbn [find]. rewrite Ep. done.
Qed.

Lemma paragraphCount_app h a b :
  paragraphCount h (a ++ b) = (paragraphCount h a + paragraphCount h b)%nat.
Proof.
  induction a as [|c a IH]; [done|]. cbn [app paragraphCount].
  destruct (gast.isParagraph h (Some c)); rewrite IH; done.
Qed.

Lemma paragraphCount_none h l :
  firstParagraph h l = None -> paragraphCount h l = 0%nat.
Proof.
  unfold firstParagraph. induction l as [|c l IH]; [done|].
  cbn [find paragraphCount].
  destruct (gast.isParagraph h (Some c)); [discriminate|exact IH].
Qed.

Lemma paragraphCount_ext h h' l :
  (forall c, c ∈ l -> gast.isParagraph h' (Some c) = gast.isParagraph h (Some c)) ->
  paragraphCount h' l = paragraphCount h l.
Proof.
  induction l as [|c l IH]; [done|]. intros Hext. cbn [paragraphCount].
  rewrite (Hext c) by (by left). rewrite IH; [done|].
  intros d Hd. apply Hext. by right.
Qed.

Section DescriptionCloserInvariants.

Context {R : Type} `{!text.Reader R} `{!util.Ops}.

(** The two outcomes of [definitionDescriptionParser.Close] on a
    description whose children are attached to it. *)
Lemma Close_outcome h node (reader : R) pc x t :
  h !! node = Some x -> data x = DefinitionDescription t ->
  attached h node = true ->
  exists h',
    definitionDescriptionParser_Close h node reader pc = Ok h'
    /\ ((h' = <[node := setData (DefinitionDescription
                                   (negb (blankPreviousLines x))) x]> h
         /\ (blankPreviousLines x = true
             \/ firstParagraph h (children x) = None))
        \/ (exists pre g gx rest,
              blankPreviousLines x = false
              /\ children x = pre ++ g :: rest
              /\ firstParagraph h pre = None
              /\ h !! g = Some gx /\ data gx = Paragraph
              /\ h' = <[g := setParent None gx]>
                        (<[node := mkNode (DefinitionDescription true) (parent x)
                                     (pre ++ length h :: rest) (lines x) false]> h)
                      ++ [textBlockNode node (lines gx)])).
Proof.
  intros Hx D Hatt.
  assert (Hlt : (node < length h)%nat) by (eapply lookup_lt_Some; eauto).
  rewrite (Close_run _ _ _ _ _ _ Hx D Hatt).
  destruct (blankPreviousLines x) eqn:Eb; cbn [negb].
  { eexists. split; [reflexivity|]. left. split; [done|by left]. }
  destruct (firstParagraph h (children x)) as [g|] eqn:Ef.
  2:{ eexists. split; [reflexivity|]. left. split; [done|by right]. }
  apply firstParagraph_split in Ef as (pre & rest & Hsplit & Hpre & Hpar).
  destruct (attached_spec _ _ Hatt) as (x' & Hx' & ND & Hch).
  assert (x' = x) as -> by congruence.
  destruct (Hch g) as (gx & Hg & Hgp).
  { rewrite Hsplit, elem_of_app, elem_of_cons. tauto. }
  destruct (isParagraph_true _ _ Hpar) as (gx' & Hg' & Dg).
  assert (gx' = gx) as -> by congruence.
  assert (Hne : g <> node) by (intros ->; congruence).
  erewrite (replaceByTextBlock_Ok _ node g _ gx);
    [ | by apply list_lookup_insert_eq | by rewrite list_lookup_insert_ne
      | done | done ].
  rewrite length_insert, list_insert_insert_eq. cbn [children setData].
  rewrite Hsplit, replace_in_middle; [ | by rewrite <- Hsplit | ].
  2:{ intros I. rewrite <- Hsplit in I. destruct (Hch _ I) as (cx & Hc & _).
      apply lookup_lt_Some in Hc. lia. }
  eexists. split; [reflexivity|]. right.
  exists pre, g, gx, rest. do 5 (split; [done|]).
  do 3 f_equal. unfold setChildren, setData. cbn. by rewrite Eb.
Qed.

(** The children that [Close] does not replace are what they were. *)
Lemma Close_tight_other_children h node x pre g gx rest c tb N :
  h !! node = Some x -> attached h node = true ->
  children x = pre ++ g :: rest -> h !! g = Some gx ->
  c ∈ pre ++ rest -> c <> node ->
  (<[g := setParent None gx]> (<[node := N]> h) ++ [tb]) !! c = h !! c.
Proof.
  intros Hx Hatt Hsplit Hg Hc Hcn.
  destruct (attached_spec _ _ Hatt) as (x' & Hx' & ND & Hch).
  assert (x' = x) as -> by congruence.
  assert (Hcin : c ∈ children x).
  { rewrite Hsplit, elem_of_app, elem_of_cons.
    apply elem_of_app in Hc. tauto. }
  destruct (Hch c Hcin) as (cx & Hcx & _).
  assert (c <> g).
  { intros ->. rewrite Hsplit in ND. apply NoDup_app in ND as (_ & Npre & ND).
    apply NoDup_cons in ND as [N' _].
    apply elem_of_app in Hc as [Hc|Hc]; [by apply (Npre g Hc); left|done]. }
  rewrite lookup_app_l by (rewrite !length_insert; eapply lookup_lt_Some; eauto).
  by rewrite !list_lookup_insert_ne.
Qed.

(** [definitionDescriptionParser.Close] keeps the number of children of
    the description, and on a tight description it takes the number of
    paragraphs among them down by exactly one (when there is one): a tight
    description is free of paragraphs after [Close] exactly when it held at
    most one before.  A loose description keeps its paragraphs. *)
Theorem definitionDescriptionParser_Close_paragraph_count
    h node (reader : R) pc x t :
  h !! node = Some x -> data x = DefinitionDescription t ->
  attached h node = true ->
  exists h',
    definitionDescriptionParser_Close h node reader pc = Ok h'
    /\ length (childrenOf h' node) = length (children x)
    /\ paragraphCount h' (childrenOf h' node)
       = if blankPreviousLines x then paragraphCount h (children x)
         else pred (paragraphCount h (children x)).
Proof.
  intros Hx D Hatt.
  assert (Hlt : (node < length h)%nat) by (eapply lookup_lt_Some; eauto).
  assert (Dx : data x <> Paragraph) by (rewrite D; done).
  destruct (Close_outcome h node reader pc x t Hx D Hatt)
    as (h' & E & [[-> Hcase]|(pre & g & gx & rest & Eb & Hsplit & Hpre & Hg & Dg & ->)]).
  - exists (<[node := setData (DefinitionDescription
                                 (negb (blankPreviousLines x))) x]> h).
    split; [exact E|]. unfold childrenOf.
    rewrite list_lookup_insert_eq by done. cbn [children setData].
    split; [done|].
    rewrite (paragraphCount_ext h).
    2:{ intros c _. by apply isParagraph_setData. }
    destruct Hcase as [->|Hnone]; [done|].
    rewrite (paragraphCount_none _ _ Hnone). by destruct (blankPreviousLines x).
  - eexists. split; [exact E|].
    assert (Hne : g <> node) by (intros ->; congruence).
    assert (Hglt : (g < length h)%nat) by (eapply lookup_lt_Some; eauto).
    set (N := mkNode (DefinitionDescription true) (parent x)
                (pre ++ length h :: rest) (lines x) false).
    set (tb := textBlockNode node (lines gx)).
    assert (HN : (<[g := setParent None gx]> (<[node := N]> h) ++ [tb]) !! node
                 = Some N).
    { rewrite lookup_app_l by (by rewrite !length_insert).
      rewrite list_lookup_insert_ne by done. by apply list_lookup_insert_eq. }
    unfold childrenOf. rewrite HN. cbn [children N].
    split; [rewrite Hsplit, !length_app; done|].
    rewrite Eb, Hsplit.
    change (pre ++ length h :: rest) with (pre ++ [length h] ++ rest).
    change (pre ++ g :: rest) with (pre ++ [g] ++ rest).
    rewrite !paragraphCount_app.
    assert (Hold : forall c, c ∈ pre ++ rest ->
              gast.isParagraph
                (<[g := setParent None gx]> (<[node := N]> h) ++ [tb]) (Some c)
              = gast.isParagraph h (Some c)).
    { intros c Hc. unfold gast.isParagraph at 1 2.
      destruct (decide (c = node)) as [->|Hcn].
      - rewrite HN, Hx. cbn [data N]. rewrite D.
        by rewrite !bool_decide_eq_false_2.
      - by rewrite (Close_tight_other_children h node x pre g gx rest c tb N). }
    rewrite (paragraphCount_ext h _ pre)
      by (intros c Hc; apply Hold, elem_of_app; by left).
    rewrite (paragraphCount_ext h _ rest)
      by (intros c Hc; apply Hold, elem_of_app; by right).
    assert (Hnew : paragraphCount
                     (<[g := setParent None gx]> (<[node := N]> h) ++ [tb])
                     [length h] = 0%nat).
    { cbn [paragraphCount]. unfold gast.isParagraph.
      replace (length h) with (length (<[g := setParent None gx]> (<[node := N]> h)))
        by (by rewrite !length_insert).
      rewrite lookup_snoc_new. cbn [data tb textBlockNode].
      by rewrite bool_decide_eq_false_2. }
    assert (Hg1 : paragraphCount h [g] = 1%nat).
    { cbn [paragraphCount]. unfold gast.isParagraph. rewrite Hg.
      by rewrite bool_decide_eq_true_2. }
    rewrite Hnew, Hg1. lia.
Qed.

(** [definitionDescriptionParser.Close] keeps the tree under the
    description a tree: afterwards the node is still a description, its
    children are without repetition and each of them names it as parent;
    no node leaves the arena. *)
Theorem definitionDescriptionParser_Close_keeps_attached
    h node (reader : R) pc x t :
  h !! node = Some x -> data x = DefinitionDescription t ->
  attached h node = true ->
  exists h',
    definitionDescriptionParser_Close h node reader pc = Ok h'
    /\ attached h' node = true
    /\ isDefinitionDescription h' node
    /\ (length h <= length h')%nat.
Proof.
  intros Hx D Hatt.
  assert (Hlt : (node < length h)%nat) by (eapply lookup_lt_Some; eauto).
  destruct (Close_outcome h node reader pc x t Hx D Hatt)
    as (h' & E & [[-> Hcase]|(pre & g & gx & rest & Eb & Hsplit & Hpre & Hg & Dg & ->)]).
  - eexists. split; [exact E|].
    split; [by apply attached_setData|].
    split; [|by rewrite length_insert].
    eexists _, _. split; [by apply list_lookup_insert_eq|reflexivity].
  - eexists. split; [exact E|].
    assert (Hne : g <> node) by (intros ->; congruence).
    assert (Hglt : (g < length h)%nat) by (eapply lookup_lt_Some; eauto).
    destruct (attached_spec _ _ Hatt) as (x' & Hx' & ND & Hch).
    assert (x' = x) as -> by congruence.
    set (N := mkNode (DefinitionDescription true) (parent x)
                (pre ++ length h :: rest) (lines x) false).
    set (tb := textBlockNode node (lines gx)).
    assert (HN : (<[g := setParent None gx]> (<[node := N]> h) ++ [tb]) !! node
                 = Some N).
    { rewrite lookup_app_l by (by rewrite !length_insert).
      rewrite list_lookup_insert_ne by done. by apply list_lookup_insert_eq. }
    assert (Hbound : forall c, c ∈ children x -> (c < length h)%nat).
    { intros c Hc. destruct (Hch c Hc) as (cx & Hcx & _).
      eapply lookup_lt_Some; eauto. }
    split; [|split].
    + apply (attached_intro _ _ N HN); cbn [children N].
      * rewrite Hsplit in ND.
        apply NoDup_app in ND as (NDpre & Hdisj & NDrest).
        apply NoDup_cons in NDrest as [Ng NDrest].
        apply NoDup_app. split; [done|]. split.
        -- intros c Hc. rewrite elem_of_cons. intros [->|Hr].
           ++ assert (length h < length h)%nat; [|lia].
              apply Hbound. rewrite Hsplit, elem_of_app. by left.
           ++ apply (Hdisj c Hc). by right.
        -- apply NoDup_cons. split; [|done]. intros Hr.
           assert (length h < length h)%nat; [|lia].
           apply Hbound. rewrite Hsplit, elem_of_app, elem_of_cons. tauto.
      * intros c Hc. rewrite elem_of_app, elem_of_cons in Hc.
        destruct (decide (c = length h)) as [->|Hnew].
        { exists tb. split; [|done].
          replace (length h)
            with (length (<[g := setParent None gx]> (<[node := N]> h)))
            by (by rewrite !length_insert).
          apply lookup_snoc_new. }
        assert (Hc' : c ∈ pre ++ rest).
        { rewrite elem_of_app. destruct Hc as [?|[?|?]]; tauto. }
        destruct (decide (c = node)) as [->|Hcn].
        { exists N. split; [done|]. cbn [parent N].
          destruct (Hch node) as (nx & Hnx & Hnp).
          { rewrite Hsplit, elem_of_app, elem_of_cons.
            apply elem_of_app in Hc'. tauto. }
          congruence. }
        rewrite (Close_tight_other_children h node x pre g gx rest c tb N)
          by done.
        apply Hch. rewrite Hsplit, elem_of_app, elem_of_cons.
        apply elem_of_app in Hc'. tauto.
    + exists N, true. done.
    + rewrite length_app, !length_insert. lia.
Qed.

End DescriptionCloserInvariants.

(** ** More on the renderer *)

Section RendererEdges.

Context {C : Type}.

(** On entering, [renderDefinitionDescription] panics exactly on a node
    that is not a DefinitionDescription: its type assertion is unchecked. *)
Theorem renderDefinitionDescription_entering_panics
    (r : DefinitionListHTMLRenderer C) (w : BufWriter) (source : list byte)
    (h : Heap) (node : NodeId) :
  renderDefinitionDescription r w source h node true = Panic
  <-> ~ isDefinitionDescription h node.
Proof.
  unfold renderDefinitionDescription, ast.toDefinitionDescription, ast.IsTight,
    deref, isDefinitionDescription.
  destruct (h !! node) as [x|] eqn:Hx; cbn [bind].
  2:{ split; [|done]. intros _ (x & t & Hx' & _). discriminate. }
  destruct (data x) eqn:D; cbn [bind];
    try (split; [|done]; intros _ (x' & t & [= <-] & D'); congruence).
  rewrite Hx. cbn [bind]. rewrite D. cbn [bind].
  split.
  - by destruct IsTight.
  - intros N. destruct N. eauto.
Qed.

(** A pass of the registered render functions over a sequence of visits
    returns exactly when every visited node is in the arena, and then it
    has appended the tags of the visits in their order; a node that is not
    of one of the three kinds adds nothing.  Otherwise the pass panics. *)
Theorem render_pass_writes_tags (r : DefinitionListHTMLRenderer C)
    (w : BufWriter) (source : list byte) (h : Heap)
    (visits : list (NodeId * bool)) :
  renderPass (RegisterFuncs r noFuncs) w source h visits
  = if visitsInArena h visits then Ok (w +:+ passTags h visits) else Panic.
Proof.
  revert w. induction visits as [|[n entering] rest IH]; intros w.
  - cbn. by rewrite append_nil_r.
  - cbn [renderPass visitsInArena forallb passTags fst].
    destruct (h !! n) as [x|] eqn:Hx.
    + rewrite (renderNode_registered r _ _ _ _ _ _ Hx). cbn [bind fst andb].
      rewrite IH. fold (visitsInArena h rest).
      destruct (visitsInArena h rest); [|done].
      by rewrite append_assoc.
    + unfold renderNode, deref. rewrite Hx. done.
Qed.

End RendererEdges.

(** ** The further properties on concrete documents *)

Section MoreOnDocuments.

Import Examples.

Lemma definitionListParser_Open_offset_bounds_witness :
  definitionListParser_Open paragraphHeap 0%nat line2 atColumn0
    = Ok (Some 2%nat, parser.HasChildren,
          paragraphHeap ++ [newNode (DefinitionList 2 (Some 1%nat))], line2)
  /\ exists off,
      ast.Offset (paragraphHeap ++ [newNode (DefinitionList 2 (Some 1%nat))])
        (Some 2%nat) = Ok off
      /\ 0 <= 0 /\ 0 + 2 <= off <= 0 + 8.
Proof.
  split; [reflexivity|].
  exact (@definitionListParser_Open_offset_bounds host.reader host.lineReader
           host.ops paragraphHeap 0%nat line2 atColumn0 _ _ _ _ eq_refl).
Defined.

(** The first line of the source, which is not indented, closes the list
    that the second line has opened. *)
Lemma definitionListParser_Continue_closes_opened_witness :
  definitionListParser_Open paragraphHeap 0%nat line2 atColumn0
    = Ok (Some 2%nat, parser.HasChildren,
          paragraphHeap ++ [newNode (DefinitionList 2 (Some 1%nat))], line2)
  /\ definitionListParser_Continue
       (paragraphHeap ++ [newNode (DefinitionList 2 (Some 1%nat))]) 2%nat
       line1 atColumn0
     = Ok (parser.Close, line1).
Proof.
  split; [reflexivity|].
  apply (@definitionListParser_Continue_closes_opened host.reader
           host.lineReader host.ops paragraphHeap 0%nat line2 atColumn0
           2%nat parser.HasChildren _ line2 line1 atColumn0 eq_refl eq_refl).
  reflexivity.
Defined.

(** The third line of the source holds one byte: with the block offset at
    5 the list opener under the list answers no match, and the description
    opener panics. *)
Lemma openers_block_offset_outside_line_witness :
  definitionListParser_Open pendingHeap 2%nat line3 (parser.mkContext 5)
    = Ok (None, parser.NoChildren, pendingHeap, line3)
  /\ definitionDescriptionParser_Open pendingHeap 2%nat line3 (parser.mkContext 5)
     = Panic.
Proof.
  apply (@openers_block_offset_outside_line host.reader host.lineReader
           host.ops pendingHeap 2%nat line3 (parser.mkContext 5)).
  right. vm_compute. discriminate.
Defined.

(** The second line of the source after the paragraph of the first: the
    term of node 3 holds the first line without its line feed, and the
    description is node 4. *)
Lemma openers_turn_paragraph_into_terms_witness :
  exists h2,
    definitionDescriptionParser_Open
      (paragraphHeap ++ [newNode (DefinitionList 2 (Some 1%nat))]) 2%nat
      line2 atColumn0
    = Ok (Some 4%nat, parser.HasChildren, h2,
          host.mkReader appleSource 6 (NewSegmentPadding 7 14 0))
    /\ h2 !! 3%nat = Some (termNode 2%nat (NewSegmentPadding 0 5 0))
    /\ ast.TemporaryParagraph h2 (Some 2%nat) = Ok None
    /\ gast.Parent h2 1%nat = Ok None
    /\ childrenOf h2 2%nat = [3%nat].
Proof.
  destruct (@openers_turn_paragraph_into_terms host.reader host.lineReader
              host.ops paragraphHeap 0%nat line2 atColumn0 2%nat
              parser.HasChildren _ line2 1%nat _
              eq_refl eq_refl eq_refl eq_refl eq_refl)
    as (h2 & E & Hterms & Htp & Hpar & _ & _ & Hch).
  exists h2. split; [exact E|].
  split; [exact (Hterms 0%nat _ eq_refl)|].
  split; [exact Htp|]. split; [exact Hpar | exact Hch].
Defined.

(** The second line of the source when the list is the last child of the
    document. *)
Lemma openers_add_description_to_last_list_witness :
  definitionListParser_Open pendingHeap 0%nat line2 atColumn0
    = Ok (Some 2%nat, parser.HasChildren,
          <[2%nat := mkNode (DefinitionList 2 None) (Some 0%nat) [] [] false]>
            pendingHeap, line2)
  /\ definitionDescriptionParser_Open
       (<[2%nat := mkNode (DefinitionList 2 None) (Some 0%nat) [] [] false]>
          pendingHeap) 2%nat line2 atColumn0
     = Ok (Some 3%nat, parser.HasChildren,
           <[2%nat := mkNode (DefinitionList 2 None) (Some 0%nat) [] [] false]>
             pendingHeap ++ [newNode (DefinitionDescription false)],
           host.mkReader appleSource 6 (NewSegmentPadding 7 14 0)).
Proof.
  split; [reflexivity|].
  destruct (@openers_add_description_to_last_list host.reader host.lineReader
              host.ops pendingHeap 0%nat line2 atColumn0 2%nat
              parser.HasChildren _ line2 2%nat eq_refl eq_refl
              (ex_intro _ 2%nat eq_refl))
    as (_ & _ & _ & E).
  exact E.
Defined.


Lemma definitionDescriptionParser_Open_detached_pending_witness :
  ast.TemporaryParagraph detachedPending (Some 2%nat) = Ok (Some 1%nat)
  /\ gast.Parent detachedPending 1%nat = Ok None
  /\ definitionDescriptionParser_Open detachedPending 2%nat line2 atColumn0
     = Panic.
Proof.
  split; [reflexivity|]. split; [reflexivity|].
  exact (@definitionDescriptionParser_Open_detached_pending host.reader
           host.lineReader host.ops detachedPending 2%nat line2 atColumn0
           _ 2 1%nat _ eq_refl eq_refl eq_refl eq_refl eq_refl eq_refl).
Defined.

(** The description of [twoParagraphs] holds two paragraphs before
    [Close] and one after it. *)
Lemma definitionDescriptionParser_Close_paragraph_count_witness :
  paragraphCount twoParagraphs (childrenOf twoParagraphs 3%nat) = 2%nat
  /\ exists h',
      definitionDescriptionParser_Close twoParagraphs 3%nat line4 atColumn0
        = Ok h'
      /\ length (childrenOf h' 3%nat) = 2%nat
      /\ paragraphCount h' (childrenOf h' 3%nat) = 1%nat.
Proof.
  split; [reflexivity|].
  destruct (definitionDescriptionParser_Close_paragraph_count (R := host.reader)
              twoParagraphs 3%nat line4 atColumn0 _ false
              eq_refl eq_refl eq_refl) as (h' & E & Hlen & Hcount).
  exists h'. split; [exact E|]. split; [exact Hlen | exact Hcount].
Defined.

(** The description of [oneParagraph] after [Close]: a tree as before. *)
Lemma definitionDescriptionParser_Close_keeps_attached_witness :
  attached oneParagraph 3%nat = true
  /\ exists h',
      definitionDescriptionParser_Close oneParagraph 3%nat line2 atColumn0
        = Ok h'
      /\ attached h' 3%nat = true.
Proof.
  split; [reflexivity|].
  destruct (definitionDescriptionParser_Close_keeps_attached (R := host.reader)
              oneParagraph 3%nat line2 atColumn0 _ false
              eq_refl eq_refl eq_refl) as (h' & E & Hatt & _).
  exists h'. split; [exact E | exact Hatt].
Defined.

End MoreOnDocuments.
